(** * vision-foundry: the Dataset / DataLoader core (include/data/data.hpp)

    A shallow embedding of the [Dataset] interface and of the batching
    iterator [DataLoader], followed by the properties of one epoch of
    iteration, of [reset], and of the unguarded corners of [nextBatch].

    Conventions of the embedding:
    - a [size_t] is a [Z] in [0, 2^64); the only arithmetic the loader does
      on it that can leave the range is [current_index_ + batch_size_], and
      its wrap-around is written out ([SizeT.add]);
    - an [int] is a [Z] in [-2^31, 2^31): the counter of
      [std::iota(first, last, 0)] is one ([Int32]);
    - what the heap grants is not the program's to decide: it is a
      parameter of the constructor ([Allocator]);
    - a [std::vector] is a [list]; [indices_.size()] is the list's length;
    - a C++ call either completes normally or throws ([result]);
    - [std::shuffle] is a library routine: it is known by its contract, the
      rearrangement of the range according to a random engine
      ([StdShuffle]), and one concrete instance (Fisher-Yates over a stream
      of draws) is given. *)

From Stdlib Require Import ZArith List Lia Bool Arith Permutation FinFun.
Import ListNotations.
Open Scope Z_scope.

Set Implicit Arguments.

(** ** Machine integers and library limits *)

Module SizeT.

(** [size_t] on the LP64 targets the project builds for. *)
Definition modulus : Z := 2 ^ 64.

Definition max : Z := modulus - 1.

Definition in_range (z : Z) : Prop := 0 <= z <= max.

Definition wrap (z : Z) : Z := z mod modulus.

(** Unsigned addition, as [a + b] on two [size_t] operands. *)
Definition add (a b : Z) : Z := wrap (a + b).

End SizeT.

Module Int32.

(** [int], the type of the literal [0]. *)
Definition min : Z := - 2 ^ 31.

Definition max : Z := 2 ^ 31 - 1.

(** The value an [int] computation wraps to in two's complement. *)
Definition wrap (z : Z) : Z := (z - min) mod 2 ^ 32 + min.

End Int32.

(** [std::vector<size_t>::max_size()]: [PTRDIFF_MAX / sizeof(size_t)];
    [resize] beyond it throws [std::length_error]. *)
Definition vector_max_size : Z := (2 ^ 63 - 1) / 8.

(** ** Exceptions *)

Inductive exception : Type :=
| out_of_range            (* std::out_of_range, from std::vector::at *)
| length_error            (* std::length_error, from std::vector::resize *)
| bad_alloc               (* std::bad_alloc, from the allocation in resize *)
| dataset_error (code : Z) (* anything else a Dataset implementation throws *).

Inductive result (A : Type) : Type :=
| Ok (a : A)
| Throw (e : exception).

Arguments Ok {A} a.
Arguments Throw {A} e.

(** ** Dataset: the abstract interface *)

(** [template <typename SampleType> class Dataset] with its two pure
    virtual, [const] member functions. *)
Record Dataset (SampleType : Type) : Type := mkDataset {
  getItem : Z -> result SampleType;
  size : Z
}.

(** [IntDataset] of the unit tests: a vector of integers, [getItem] is
    [data_.at(index)], [size] is [data_.size()]. *)
Definition IntDataset (data_ : list Z) : Dataset Z :=
  {| getItem := fun index =>
       if index <? Z.of_nat (length data_)
       then Ok (nth (Z.to_nat index) data_ 0)
       else Throw out_of_range;
     size := Z.of_nat (length data_) |}.

(** ** std::iota and std::shuffle *)

(** What [operator new] grants when [indices_] is resized:
    [allocates n] tells whether room for [n] elements of type [size_t]
    can be had. *)
Class Allocator : Type := {
  allocates : Z -> bool
}.

(** [std::iota(first, last, value)] over a range of [n] cells of type
    [size_t], with [value] of type [int] as at its one call site
    ([std::iota(indices_.begin(), indices_.end(), 0)]): each cell
    receives [value] converted to [size_t], then [++value].  Past
    [INT_MAX] the increment overflows; the language leaves that
    undefined, and it is written here as the two's-complement wrap that
    compilers produce.  Ranges of at most [INT_MAX] cells never get
    there. *)
Fixpoint iota (n : nat) (value : Z) : list Z :=
  match n with
  | O => []
  | S n' => SizeT.wrap value :: iota n' (Int32.wrap (value + 1))
  end.

(** The indices [0, 1, .., n-1], in that order. *)
Definition natural_order (n : nat) : list Z := map Z.of_nat (seq 0 n).

(** The contract of [std::shuffle(first, last, g)]: the range is
    rearranged, in a way the engine [g] decides. *)
Class StdShuffle (Engine : Type) : Type := {
  std_shuffle : Engine -> list Z -> list Z;
  std_shuffle_perm : forall g l, Permutation l (std_shuffle g l)
}.

(** One implementation: the Fisher-Yates loop
    [for (i = 1; i < n; ++i) swap(a[i], a[uniform(0, i)])],
    the engine being the stream of its draws. *)
Definition transpose (i j k : nat) : nat :=
  if Nat.eqb k i then j else if Nat.eqb k j then i else k.

Definition iter_swap (i j : nat) (l : list Z) : list Z :=
  map (fun k => nth (transpose i j k) l 0) (seq 0 (length l)).

Fixpoint fisher_yates_loop (draws : nat -> nat) (i steps : nat) (l : list Z)
  : list Z :=
  match steps with
  | O => l
  | S steps' =>
      fisher_yates_loop draws (S i) steps' (iter_swap i (draws i mod S i)%nat l)
  end.

Definition fisher_yates (draws : nat -> nat) (l : list Z) : list Z :=
  fisher_yates_loop draws 1 (length l - 1) l.

(** ** Fixtures *)

(** The dataset of [DataLoaderTest.BatchIterationNoShuffle]. *)
Definition test_dataset : Dataset Z := IntDataset [10; 11; 12; 13; 14].

(** The same five samples behind a backing store whose fourth entry
    cannot be read. *)
Definition flaky_dataset : Dataset Z :=
  {| getItem := fun index =>
       if index =? 3 then Throw (dataset_error 1) else getItem test_dataset index;
     size := 5 |}.

(** A dataset of [2^31 + 1] samples, sample [i] being [i], with the
    range check of [std::vector::at]. *)
Definition big_dataset : Dataset Z :=
  {| getItem := fun index =>
       if index <? 2 ^ 31 + 1 then Ok index else Throw out_of_range;
     size := 2 ^ 31 + 1 |}.

(** A stream of draws for the Fisher-Yates engine. *)
Definition test_draws : nat -> nat := fun k => (7 * k + 3)%nat.

(** A heap with room for index vectors of up to [2^32] entries. *)
#[export] Instance test_memory : Allocator :=
  {| allocates := fun n => n <=? 2 ^ 32 |}.

(** ** DataLoader *)

Section DataLoader.

Context {Engine : Type} {Shuffle : StdShuffle Engine} {Memory : Allocator}.
Variable SampleType : Type.

Record DataLoader : Type := mkDataLoader {
  dataset_ : Dataset SampleType;
  batch_size_ : Z;
  shuffle_ : bool;
  indices_ : list Z;
  current_index_ : Z
}.

(** [indices_.size()] *)
Definition indices_size (dl : DataLoader) : Z := Z.of_nat (length (indices_ dl)).

(** The constructor.  [g] is the engine [std::mt19937(std::random_device()())]
    built for this call.  The body has no [throw]; the only library call
    that can is [resize]: [std::length_error] beyond [max_size()],
    [std::bad_alloc] when the heap does not grant the room. *)
Definition DataLoader_new (dataset : Dataset SampleType) (batch_size : Z)
    (shuffle : bool) (g : Engine) : result DataLoader :=
  if vector_max_size <? size dataset then Throw length_error
  else if negb (allocates (size dataset)) then Throw bad_alloc
  else
    let indices := iota (Z.to_nat (size dataset)) 0 in
    Ok {| dataset_ := dataset;
          batch_size_ := batch_size;
          shuffle_ := shuffle;
          indices_ := if shuffle then std_shuffle g indices else indices;
          current_index_ := 0 |}.

Definition hasNext (dl : DataLoader) : bool :=
  current_index_ dl <? indices_size dl.

(** [end_index] of [nextBatch]. *)
Definition end_index (dl : DataLoader) : Z :=
  Z.min (SizeT.add (current_index_ dl) (batch_size_ dl)) (indices_size dl).

(** The [for] loop of [nextBatch], [n] iterations from [i]; [batch] is the
    vector being filled and [calls] records, in order, the arguments of
    the [getItem] calls made so far.  A throwing [getItem] leaves the
    loop at once. *)
Fixpoint for_loop (dataset : Dataset SampleType) (indices : list Z)
    (i : Z) (n : nat) (batch : list SampleType) (calls : list Z)
  : result (list SampleType) * list Z :=
  match n with
  | O => (Ok batch, calls)
  | S n' =>
      let index := nth (Z.to_nat i) indices 0 in
      match getItem dataset index with
      | Throw e => (Throw e, calls ++ [index])
      | Ok sample =>
          for_loop dataset indices (i + 1) n' (batch ++ [sample]) (calls ++ [index])
      end
  end.

(** [nextBatch]: the returned batch or the exception that escaped, the
    [getItem] calls made, and the loader afterwards.  The loop runs
    [end_index - current_index_] times when that is positive and not at
    all otherwise; [current_index_ = end_index] is only reached when the
    loop completed. *)
Definition nextBatch (dl : DataLoader)
  : result (list SampleType) * list Z * DataLoader :=
  let e := end_index dl in
  match for_loop (dataset_ dl) (indices_ dl) (current_index_ dl)
                 (Z.to_nat (e - current_index_ dl)) [] [] with
  | (Throw ex, calls) => (Throw ex, calls, dl)
  | (Ok batch, calls) =>
      (Ok batch, calls,
       {| dataset_ := dataset_ dl;
          batch_size_ := batch_size_ dl;
          shuffle_ := shuffle_ dl;
          indices_ := indices_ dl;
          current_index_ := e |})
  end.

(** [reset], with the engine built for this call. *)
Definition reset (g : Engine) (dl : DataLoader) : DataLoader :=
  {| dataset_ := dataset_ dl;
     batch_size_ := batch_size_ dl;
     shuffle_ := shuffle_ dl;
     indices_ := if shuffle_ dl then std_shuffle g (indices_ dl) else indices_ dl;
     current_index_ := 0 |}.

(** One epoch as the callers drive it:
    [while (loader.hasNext()) { auto b = loader.nextBatch(); ... }].
    [fuel] bounds the number of iterations; [None] means the bound was
    reached with [hasNext()] still true. *)
Fixpoint run_epoch (fuel : nat) (dl : DataLoader)
  : option (result (list (list SampleType)) * list Z * DataLoader) :=
  if hasNext dl then
    match fuel with
    | O => None
    | S fuel' =>
        match nextBatch dl with
        | (Throw ex, calls, dl') => Some (Throw ex, calls, dl')
        | (Ok batch, calls, dl') =>
            match run_epoch fuel' dl' with
            | None => None
            | Some (Ok batches, calls', dl'') =>
                Some (Ok (batch :: batches), calls ++ calls', dl'')
            | Some (Throw ex, calls', dl'') =>
                Some (Throw ex, calls ++ calls', dl'')
            end
        end
    end
  else Some (Ok [], [], dl).

(** The operations a client can apply to a loader. *)
Inductive operation : Type :=
| op_hasNext
| op_nextBatch
| op_reset (g : Engine).

Definition apply_operation (op : operation) (dl : DataLoader) : DataLoader :=
  match op with
  | op_hasNext => dl
  | op_nextBatch => snd (nextBatch dl)
  | op_reset g => reset g dl
  end.

(** DataLoaders reachable from a construction over [dataset]. *)
Inductive reachable (dataset : Dataset SampleType) (batch_size : Z)
    (shuffle : bool) : DataLoader -> Prop :=
| reachable_new : forall g dl,
    DataLoader_new dataset batch_size shuffle g = Ok dl ->
    reachable dataset batch_size shuffle dl
| reachable_step : forall op dl,
    reachable dataset batch_size shuffle dl ->
    reachable dataset batch_size shuffle (apply_operation op dl).

(** ** Vocabulary of the statements *)

(** A dataset honouring its contract: every index below [size] has a sample. *)
Definition dataset_valid (dataset : Dataset SampleType) : Prop :=
  forall index, 0 <= index < size dataset ->
    exists sample, getItem dataset index = Ok sample.

(** [samples] are what [getItem] returns on [indexes], one for one. *)
Definition samples_of (dataset : Dataset SampleType) (indexes : list Z)
    (samples : list SampleType) : Prop :=
  Forall2 (fun index sample => getItem dataset index = Ok sample) indexes samples.

(** Two loaders that differ at most in the cursor. *)
Definition same_config (dl dl' : DataLoader) : Prop :=
  dataset_ dl' = dataset_ dl /\ batch_size_ dl' = batch_size_ dl /\
  shuffle_ dl' = shuffle_ dl /\ indices_ dl' = indices_ dl.

(** The entries [indices_[current_index_ .. end_index)] a call of
    [nextBatch] is to read. *)
Definition batch_indices (dl : DataLoader) : list Z :=
  firstn (Z.to_nat (end_index dl - current_index_ dl))
         (skipn (Z.to_nat (current_index_ dl)) (indices_ dl)).

(** The lengths of the batches of an epoch over [remaining] samples:
    all [batch_size], except the last, [remaining mod batch_size] or
    [batch_size] when that is zero; no batch at all when nothing remains. *)
Definition epoch_lengths (batch_size remaining : Z)
    (batches : list (list SampleType)) : Prop :=
  if remaining =? 0 then batches = []
  else exists front last_batch,
      batches = front ++ [last_batch] /\
      Forall (fun b => Z.of_nat (length b) = batch_size) front /\
      Z.of_nat (length last_batch) =
        (if remaining mod batch_size =? 0 then batch_size
         else remaining mod batch_size).

End DataLoader.

Arguments DataLoader_new {Engine Shuffle Memory SampleType}.
Arguments reachable {Engine Shuffle Memory SampleType}.

(** Loaders over the fixtures: as constructed without shuffling and batch
    size 2; as constructed with the shuffle of [test_draws]; the first
    once its epoch is over; one over [flaky_dataset]
    whose next batch covers the unreadable entry, and the same at the
    start of its epoch; one over no sample at all; and one with the
    largest batch size there is, as constructed and after its only
    batch. *)
Definition test_loader : DataLoader Z :=
  {| dataset_ := test_dataset; batch_size_ := 2; shuffle_ := false;
     indices_ := [0; 1; 2; 3; 4]; current_index_ := 0 |}.

Definition shuffled_loader : DataLoader Z :=
  {| dataset_ := test_dataset; batch_size_ := 2; shuffle_ := true;
     indices_ := fisher_yates test_draws [0; 1; 2; 3; 4]; current_index_ := 0 |}.

Definition exhausted_loader : DataLoader Z :=
  {| dataset_ := test_dataset; batch_size_ := 2; shuffle_ := false;
     indices_ := [0; 1; 2; 3; 4]; current_index_ := 5 |}.

Definition flaky_loader : DataLoader Z :=
  {| dataset_ := flaky_dataset; batch_size_ := 2; shuffle_ := false;
     indices_ := [0; 1; 2; 3; 4]; current_index_ := 2 |}.

Definition flaky_loader_start : DataLoader Z :=
  {| dataset_ := flaky_dataset; batch_size_ := 2; shuffle_ := false;
     indices_ := [0; 1; 2; 3; 4]; current_index_ := 0 |}.

Definition empty_loader : DataLoader Z :=
  {| dataset_ := IntDataset []; batch_size_ := 3; shuffle_ := true;
     indices_ := []; current_index_ := 0 |}.

Definition greedy_loader : DataLoader Z :=
  {| dataset_ := test_dataset; batch_size_ := SizeT.max; shuffle_ := false;
     indices_ := [0; 1; 2; 3; 4]; current_index_ := 0 |}.

Definition greedy_loader_exhausted : DataLoader Z :=
  {| dataset_ := test_dataset; batch_size_ := SizeT.max; shuffle_ := false;
     indices_ := [0; 1; 2; 3; 4]; current_index_ := 5 |}.

(** ** Facts about the library routines *)

Ltac machine_constants :=
  unfold Int32.wrap, Int32.min, Int32.max, SizeT.add, SizeT.wrap, SizeT.max,
         SizeT.modulus in *;
  change (2 ^ 31) with 2147483648 in *;
  change (2 ^ 32) with 4294967296 in *;
  change (2 ^ 64) with 18446744073709551616 in *.

Lemma Int32_wrap_small : forall z,
  Int32.min <= z <= Int32.max -> Int32.wrap z = z.
Proof.
  intros z H. machine_constants.
  rewrite Z.mod_small by lia. lia.
Qed.

Lemma Int32_wrap_range : forall z, Int32.min <= Int32.wrap z <= Int32.max.
Proof.
  intros z. machine_constants.
  match goal with
  | |- context [?a mod ?b] => pose proof (Z.mod_pos_bound a b ltac:(lia))
  end. lia.
Qed.

Lemma Int32_wrap_add : forall a b,
  Int32.wrap (Int32.wrap a + b) = Int32.wrap (a + b).
Proof.
  intros a b. unfold Int32.wrap. f_equal.
  replace ((a - Int32.min) mod 2 ^ 32 + Int32.min + b - Int32.min)
    with ((a - Int32.min) mod 2 ^ 32 + b) by lia.
  rewrite Zplus_mod_idemp_l. f_equal. lia.
Qed.

Lemma SizeT_wrap_small : forall z, 0 <= z <= SizeT.max -> SizeT.wrap z = z.
Proof. intros z H. machine_constants. apply Z.mod_small. lia. Qed.

Lemma SizeT_wrap_negative : forall z,
  Int32.min <= z < 0 -> SizeT.wrap z = SizeT.modulus + z.
Proof.
  intros z H. machine_constants.
  symmetry. apply Zmod_unique with (-1); lia.
Qed.

Lemma iota_length : forall n v, length (iota n v) = n.
Proof. induction n as [|n IH]; intros v; simpl; [reflexivity | now rewrite IH]. Qed.

(** Below [INT_MAX] the counter does what its name says. *)
Lemma iota_counts : forall n v,
  0 <= v -> v + Z.of_nat n <= Int32.max + 1 ->
  iota n v = map (fun k => v + Z.of_nat k) (seq 0 n).
Proof.
  induction n as [|n IH]; intros v Hv Hn; [reflexivity|].
  cbn [iota seq map]. f_equal.
  - rewrite SizeT_wrap_small by (machine_constants; lia). lia.
  - destruct n as [|n]; [reflexivity|].
    rewrite Int32_wrap_small by (machine_constants; lia).
    rewrite IH by lia. rewrite <- seq_shift, map_map.
    apply map_ext. intros k. lia.
Qed.

Lemma iota_natural_order : forall n,
  Z.of_nat n <= Int32.max + 1 -> iota n 0 = natural_order n.
Proof.
  intros n Hn. rewrite iota_counts by lia. unfold natural_order.
  apply map_ext. intros k. lia.
Qed.

Lemma natural_order_length : forall n, length (natural_order n) = n.
Proof. intros n. unfold natural_order. now rewrite length_map, length_seq. Qed.

Lemma natural_order_In : forall n x,
  In x (natural_order n) <-> 0 <= x < Z.of_nat n.
Proof.
  intros n x. unfold natural_order. rewrite in_map_iff. split.
  - intros (k & <- & Hk). apply in_seq in Hk. lia.
  - intros Hx. exists (Z.to_nat x). split; [lia|]. apply in_seq. lia.
Qed.

Lemma natural_order_NoDup : forall n, NoDup (natural_order n).
Proof.
  intros n. unfold natural_order. apply Injective_map_NoDup.
  - intros a b. apply Nat2Z.inj.
  - apply seq_NoDup.
Qed.

(** Whatever the length of the range, a cell only ever receives an [int]
    converted to [size_t]: a value up to [INT_MAX], or one of the top
    [2^31] values of [size_t]. *)
Lemma iota_In_int : forall n v x,
  Int32.min <= v <= Int32.max -> In x (iota n v) ->
  0 <= x <= Int32.max \/ SizeT.modulus + Int32.min <= x <= SizeT.max.
Proof.
  induction n as [|n IH]; intros v x Hv Hin; simpl in Hin; [contradiction|].
  destruct Hin as [<- | Hin].
  - destruct (Z_lt_le_dec v 0) as [Hneg|Hpos].
    + right. rewrite SizeT_wrap_negative by lia. machine_constants. lia.
    + left. rewrite SizeT_wrap_small by (machine_constants; lia). lia.
  - eapply IH; [apply Int32_wrap_range | exact Hin].
Qed.

Lemma iota_nth : forall n v k,
  Int32.min <= v <= Int32.max -> (k < n)%nat ->
  nth k (iota n v) 0 = SizeT.wrap (Int32.wrap (v + Z.of_nat k)).
Proof.
  induction n as [|n IH]; intros v k Hv Hk; [lia|].
  destruct k as [|k]; cbn [iota nth].
  - rewrite Z.add_0_r, Int32_wrap_small by assumption. reflexivity.
  - rewrite IH by (try apply Int32_wrap_range; lia).
    rewrite Int32_wrap_add. do 2 f_equal. lia.
Qed.

(** A range of more than [2^31] cells: the cell of rank [2^31] receives
    [INT_MIN] converted to [size_t], and no cell receives [2^31]. *)
Lemma iota_overflow : forall n,
  2 ^ 31 < Z.of_nat n ->
  In (SizeT.modulus - 2 ^ 31) (iota n 0) /\ ~ In (2 ^ 31) (iota n 0).
Proof.
  intros n Hn. split.
  - remember (Z.to_nat (2 ^ 31)) as k eqn:Hk.
    assert (Hk' : Z.of_nat k = 2 ^ 31)
      by (subst k; apply Z2Nat.id; machine_constants; lia).
    assert (Hlt : (k < n)%nat) by lia.
    replace (SizeT.modulus - 2 ^ 31) with (nth k (iota n 0) 0).
    + apply nth_In. now rewrite iota_length.
    + rewrite iota_nth by (machine_constants; lia).
      rewrite Z.add_0_l, Hk'. reflexivity.
  - intros Hin. apply iota_In_int in Hin; machine_constants; lia.
Qed.

Lemma map_nth_seq : forall (l : list Z),
  map (fun k => nth k l 0) (seq 0 (length l)) = l.
Proof.
  induction l as [|a l IH]; simpl; [reflexivity|].
  f_equal. rewrite <- seq_shift, map_map. exact IH.
Qed.

Lemma transpose_involutive : forall i j k, transpose i j (transpose i j k) = k.
Proof.
  intros i j k. unfold transpose.
  destruct (Nat.eqb_spec k i) as [Hki|Hki].
  - rewrite Nat.eqb_refl. destruct (Nat.eqb_spec j i); lia.
  - destruct (Nat.eqb_spec k j) as [Hkj|Hkj].
    + now rewrite Nat.eqb_refl.
    + destruct (Nat.eqb_spec k i), (Nat.eqb_spec k j); lia.
Qed.

Lemma transpose_bound : forall n i j k,
  (i < n)%nat -> (j < n)%nat -> (k < n)%nat -> (transpose i j k < n)%nat.
Proof.
  intros n i j k Hi Hj Hk. unfold transpose.
  destruct (Nat.eqb k i); [assumption|]. destruct (Nat.eqb k j); assumption.
Qed.

Lemma iter_swap_perm : forall i j l,
  (i < length l)%nat -> (j < length l)%nat -> Permutation l (iter_swap i j l).
Proof.
  intros i j l Hi Hj.
  rewrite <- (map_nth_seq l) at 1.
  unfold iter_swap.
  rewrite <- (map_map (transpose i j) (fun k => nth k l 0)).
  apply Permutation_map, Permutation_sym, nat_bijection_Permutation.
  - intros k Hk. now apply transpose_bound.
  - intros a b Hab.
    rewrite <- (transpose_involutive i j a), Hab. apply transpose_involutive.
Qed.

Lemma iter_swap_length : forall i j l, length (iter_swap i j l) = length l.
Proof. intros. unfold iter_swap. now rewrite length_map, length_seq. Qed.

Lemma fisher_yates_loop_perm : forall draws steps i l,
  (0 < i)%nat -> (i + steps <= length l)%nat ->
  Permutation l (fisher_yates_loop draws i steps l).
Proof.
  induction steps as [|steps IH]; intros i l Hi Hlen; simpl.
  - apply Permutation_refl.
  - assert (Hj : (draws i mod S i < S i)%nat) by (apply Nat.mod_upper_bound; lia).
    eapply Permutation_trans.
    + apply (iter_swap_perm (i := i) (j := (draws i mod S i)%nat)); lia.
    + apply IH; [lia | rewrite iter_swap_length; lia].
Qed.

Lemma fisher_yates_perm : forall draws l, Permutation l (fisher_yates draws l).
Proof.
  intros draws l. unfold fisher_yates.
  destruct l as [|a l]; [apply Permutation_refl|].
  apply fisher_yates_loop_perm; simpl; lia.
Qed.

#[export] Instance FisherYates : StdShuffle (nat -> nat) :=
  {| std_shuffle := fisher_yates; std_shuffle_perm := fisher_yates_perm |}.

(** ** Facts about lists and limits *)

Lemma skipn_nth_cons : forall (l : list Z) k,
  (k < length l)%nat -> skipn k l = nth k l 0 :: skipn (S k) l.
Proof.
  induction l as [|a l IH]; intros k Hk; simpl in Hk; [lia|].
  destruct k as [|k]; [reflexivity|].
  change (skipn k l = nth k l 0 :: skipn (S k) l). apply IH. lia.
Qed.

Lemma firstn_skipn_glue : forall (l : list Z) k n,
  firstn n (skipn k l) ++ skipn (k + n) l = skipn k l.
Proof.
  intros l k n. rewrite Nat.add_comm, <- skipn_skipn. apply firstn_skipn.
Qed.

Lemma vector_max_size_twice : 2 * vector_max_size <= SizeT.max.
Proof. now vm_compute. Qed.

Lemma SizeT_modulus_pos : 0 < SizeT.modulus.
Proof. reflexivity. Qed.

Lemma SizeT_add_small : forall a b,
  0 <= a + b <= SizeT.max -> SizeT.add a b = a + b.
Proof.
  intros a b H. unfold SizeT.add, SizeT.wrap, SizeT.max in *.
  apply Z.mod_small. lia.
Qed.

Lemma SizeT_add_range : forall a b, 0 <= SizeT.add a b <= SizeT.max.
Proof.
  intros a b. unfold SizeT.add, SizeT.wrap, SizeT.max.
  pose proof (Z.mod_pos_bound (a + b) SizeT.modulus SizeT_modulus_pos). lia.
Qed.

(** ** Facts about the loader's operations *)

Section DataLoaderFacts.

Context {Engine : Type} {Shuffle : StdShuffle Engine}.
Variable SampleType : Type.

Lemma same_config_refl : forall dl : DataLoader SampleType, same_config dl dl.
Proof. intros dl. repeat split. Qed.

Lemma same_config_trans : forall a b c : DataLoader SampleType,
  same_config a b -> same_config b c -> same_config a c.
Proof.
  intros a b c (Hd & Hb & Hs & Hi) (Hd' & Hb' & Hs' & Hi').
  repeat split; congruence.
Qed.

Lemma std_shuffle_length : forall (g : Engine) l,
  length (std_shuffle g l) = length l.
Proof. intros g l. symmetry. apply Permutation_length, std_shuffle_perm. Qed.

Lemma end_index_le_size : forall dl : DataLoader SampleType,
  end_index dl <= indices_size dl.
Proof. intros dl. unfold end_index. lia. Qed.

Lemma end_index_nonneg : forall dl : DataLoader SampleType, 0 <= end_index dl.
Proof.
  intros dl. unfold end_index, indices_size.
  pose proof (SizeT_add_range (current_index_ dl) (batch_size_ dl)). lia.
Qed.

(** What the loop does on the segment of [indices] it walks: it either
    collects one sample per entry, or stops at the first entry whose
    [getItem] throws. *)
Lemma for_loop_cases : forall (d : Dataset SampleType) indices n i batch calls,
  0 <= i -> (n = 0 \/ Z.to_nat i + n <= length indices)%nat ->
  let segment := firstn n (skipn (Z.to_nat i) indices) in
  (exists samples,
      samples_of d segment samples /\ length samples = n /\
      for_loop d indices i n batch calls = (Ok (batch ++ samples), calls ++ segment))
  \/
  (exists e index calls',
      In index segment /\ getItem d index = Throw e /\
      for_loop d indices i n batch calls = (Throw e, calls')).
Proof.
  intros d indices n. induction n as [|n IH]; intros i batch calls Hi Hn; simpl.
  - left. exists []. rewrite !app_nil_r. repeat split. constructor.
  - assert (Hlen : (Z.to_nat i + S n <= length indices)%nat) by lia.
    rewrite (@skipn_nth_cons indices (Z.to_nat i)) by lia. simpl.
    destruct (getItem d (nth (Z.to_nat i) indices 0)) as [sample|e] eqn:Hget.
    + assert (Hnext : Z.to_nat (i + 1) = S (Z.to_nat i)) by lia.
      destruct (IH (i + 1) (batch ++ [sample])
                   (calls ++ [nth (Z.to_nat i) indices 0]))
        as [(samples & Hs & Hl & Hrun) | (e & index & calls' & Hin & He & Hrun)];
        [lia | right; lia | |]; rewrite Hnext in *.
      * left. exists (sample :: samples). repeat split.
        -- constructor; assumption.
        -- simpl. now rewrite Hl.
        -- rewrite Hrun, <- !app_assoc. reflexivity.
      * right. exists e, index, calls'. repeat split; [now right | assumption..].
    + right. exists e, (nth (Z.to_nat i) indices 0), (calls ++ [nth (Z.to_nat i) indices 0]).
      repeat split; [now left | assumption].
Qed.

Lemma samples_of_all_ok : forall (d : Dataset SampleType) indexes samples,
  samples_of d indexes samples ->
  Forall (fun index => exists sample, getItem d index = Ok sample) indexes.
Proof.
  intros d indexes samples H. induction H; constructor; eauto.
Qed.

Lemma samples_of_length : forall (d : Dataset SampleType) indexes samples,
  samples_of d indexes samples -> length samples = length indexes.
Proof. intros d indexes samples H. induction H; simpl; congruence. Qed.

Lemma samples_of_app : forall (d : Dataset SampleType) i1 s1 i2 s2,
  samples_of d i1 s1 -> samples_of d i2 s2 -> samples_of d (i1 ++ i2) (s1 ++ s2).
Proof. intros. now apply Forall2_app. Qed.

(** The loop bound of [nextBatch] never leaves [indices_]. *)
Lemma nextBatch_bound : forall dl : DataLoader SampleType,
  0 <= current_index_ dl ->
  (Z.to_nat (end_index dl - current_index_ dl) = 0 \/
   Z.to_nat (current_index_ dl) + Z.to_nat (end_index dl - current_index_ dl)
     <= length (indices_ dl))%nat.
Proof.
  intros dl Hc. pose proof (end_index_le_size dl) as He.
  unfold indices_size in He. lia.
Qed.

(** [nextBatch] when every [getItem] of the batch succeeds. *)
Lemma nextBatch_all_ok : forall dl : DataLoader SampleType,
  0 <= current_index_ dl ->
  Forall (fun index => exists sample, getItem (dataset_ dl) index = Ok sample)
         (batch_indices dl) ->
  exists batch dl',
    nextBatch dl = (Ok batch, batch_indices dl, dl') /\
    samples_of (dataset_ dl) (batch_indices dl) batch /\
    length batch = Z.to_nat (end_index dl - current_index_ dl) /\
    same_config dl dl' /\ current_index_ dl' = end_index dl.
Proof.
  intros dl Hc Hok. unfold nextBatch.
  destruct (@for_loop_cases (dataset_ dl) (indices_ dl)
              (Z.to_nat (end_index dl - current_index_ dl)) (current_index_ dl)
              [] [] Hc (nextBatch_bound dl Hc))
    as [(samples & Hs & Hl & Hrun) | (e & index & calls' & Hin & He & Hrun)].
  - rewrite Hrun. simpl. eexists _, _. repeat split; assumption.
  - exfalso. rewrite Forall_forall in Hok.
    destruct (Hok index Hin) as [sample Hsample]. congruence.
Qed.

(** [nextBatch] when some [getItem] of the batch throws. *)
Lemma nextBatch_some_throw : forall dl : DataLoader SampleType,
  0 <= current_index_ dl ->
  Exists (fun index => exists e, getItem (dataset_ dl) index = Throw e)
         (batch_indices dl) ->
  exists e calls, nextBatch dl = (Throw e, calls, dl).
Proof.
  intros dl Hc Hbad. unfold nextBatch.
  destruct (@for_loop_cases (dataset_ dl) (indices_ dl)
              (Z.to_nat (end_index dl - current_index_ dl)) (current_index_ dl)
              [] [] Hc (nextBatch_bound dl Hc))
    as [(samples & Hs & Hl & Hrun) | (e & index & calls' & Hin & He & Hrun)].
  - exfalso. apply samples_of_all_ok in Hs. rewrite Forall_forall in Hs.
    apply Exists_exists in Hbad. destruct Hbad as (index & Hin & e & He).
    destruct (Hs index Hin) as [sample Hsample]. congruence.
  - rewrite Hrun. eauto.
Qed.

(** Whatever happens, [nextBatch] touches nothing but the cursor, and
    the cursor stays within [0, indices_.size()]. *)
Lemma nextBatch_frame : forall dl : DataLoader SampleType,
  same_config dl (snd (nextBatch dl)) /\
  (current_index_ (snd (nextBatch dl)) = current_index_ dl \/
   current_index_ (snd (nextBatch dl)) = end_index dl).
Proof.
  intros dl. unfold nextBatch.
  destruct (for_loop _ _ _ _ _ _) as [[batch|e] calls]; simpl.
  - split; [repeat split | now right].
  - split; [apply same_config_refl | now left].
Qed.

(** ** One epoch *)

Lemma hasNext_true_iff : forall dl : DataLoader SampleType,
  hasNext dl = true <-> current_index_ dl < indices_size dl.
Proof. intros dl. unfold hasNext. apply Z.ltb_lt. Qed.

Lemma hasNext_false_iff : forall dl : DataLoader SampleType,
  hasNext dl = false <-> indices_size dl <= current_index_ dl.
Proof. intros dl. unfold hasNext. apply Z.ltb_ge. Qed.

Lemma run_epoch_exhausted : forall fuel (dl : DataLoader SampleType),
  hasNext dl = false -> run_epoch fuel dl = Some (Ok [], [], dl).
Proof. intros fuel dl H. destruct fuel; simpl; now rewrite H. Qed.

Lemma Forall_firstn_skipn : forall (P : Z -> Prop) n k l,
  Forall P l -> Forall P (firstn n (skipn k l)).
Proof.
  intros P n k l H. rewrite Forall_forall in *. intros x Hx.
  apply H. rewrite <- (firstn_skipn k l). apply in_or_app. right.
  rewrite <- (firstn_skipn n (skipn k l)). apply in_or_app. now left.
Qed.

Lemma epoch_lengths_step : forall B R (batch : list SampleType) batches,
  1 <= B -> 0 < R ->
  Z.of_nat (length batch) = Z.min B R ->
  epoch_lengths B (R - Z.min B R) batches ->
  epoch_lengths B R (batch :: batches).
Proof.
  intros B R batch batches HB HR Hlen Hrest. unfold epoch_lengths in *.
  replace (R =? 0) with false by (symmetry; apply Z.eqb_neq; lia).
  destruct (Z.le_gt_cases R B) as [Hle|Hgt].
  - replace (R - Z.min B R =? 0) with true in Hrest
      by (symmetry; apply Z.eqb_eq; lia).
    subst batches. exists [], batch. repeat split; [constructor|].
    rewrite Hlen. destruct (Z.eq_dec R B) as [->|Hne].
    + rewrite Z_mod_same_full. simpl. lia.
    + rewrite Z.mod_small by lia.
      replace (R =? 0) with false by (symmetry; apply Z.eqb_neq; lia). lia.
  - replace (R - Z.min B R =? 0) with false in Hrest
      by (symmetry; apply Z.eqb_neq; lia).
    destruct Hrest as (front & last_batch & -> & Hfront & Hlast).
    exists (batch :: front), last_batch. repeat split.
    + constructor; [lia | assumption].
    + rewrite Hlast. replace (R - Z.min B R) with (R + (-1) * B) by lia.
      now rewrite Z_mod_plus_full.
Qed.

Lemma skipn_indices_size : forall dl : DataLoader SampleType,
  skipn (Z.to_nat (indices_size dl)) (indices_ dl) = [].
Proof. intros dl. unfold indices_size. rewrite Nat2Z.id. apply skipn_all. Qed.

Lemma run_epoch_at_end : forall fuel (dl : DataLoader SampleType),
  current_index_ dl = indices_size dl ->
  exists batches dl',
    run_epoch fuel dl =
      Some (Ok batches, skipn (Z.to_nat (current_index_ dl)) (indices_ dl), dl') /\
    same_config dl dl' /\ current_index_ dl' = indices_size dl /\
    samples_of (dataset_ dl) (skipn (Z.to_nat (current_index_ dl)) (indices_ dl))
               (concat batches) /\
    epoch_lengths (batch_size_ dl) (indices_size dl - current_index_ dl) batches.
Proof.
  intros fuel dl Hend. exists [], dl.
  rewrite run_epoch_exhausted by (apply hasNext_false_iff; lia).
  rewrite Hend, skipn_indices_size, Z.sub_diag.
  repeat split; constructor.
Qed.

(** The loop from any cursor from which [current_index_ + batch_size_]
    cannot wrap: with fuel for the samples that remain it ends, exhausted,
    having read the rest of [indices_] in order, cut into batches. *)
Lemma run_epoch_from : forall fuel (dl : DataLoader SampleType),
  0 <= current_index_ dl <= indices_size dl ->
  indices_size dl <= vector_max_size ->
  1 <= batch_size_ dl <= SizeT.max ->
  (current_index_ dl + batch_size_ dl <= SizeT.max \/
   current_index_ dl = indices_size dl) ->
  Forall (fun index => exists sample, getItem (dataset_ dl) index = Ok sample)
         (indices_ dl) ->
  (Z.to_nat (indices_size dl - current_index_ dl) <= fuel)%nat ->
  exists batches dl',
    run_epoch fuel dl =
      Some (Ok batches, skipn (Z.to_nat (current_index_ dl)) (indices_ dl), dl') /\
    same_config dl dl' /\ current_index_ dl' = indices_size dl /\
    samples_of (dataset_ dl) (skipn (Z.to_nat (current_index_ dl)) (indices_ dl))
               (concat batches) /\
    epoch_lengths (batch_size_ dl) (indices_size dl - current_index_ dl) batches.
Proof.
  induction fuel as [|fuel IH]; intros dl Hc HN HB Hwrap Hok Hfuel.
  - apply run_epoch_at_end. lia.
  - destruct (Z.eq_dec (current_index_ dl) (indices_size dl)) as [Hend|Hmore].
    + now apply run_epoch_at_end.
    + assert (Hlt : current_index_ dl < indices_size dl) by lia.
      assert (Hsum : SizeT.add (current_index_ dl) (batch_size_ dl)
                     = current_index_ dl + batch_size_ dl)
        by (apply SizeT_add_small; lia).
      assert (He : end_index dl
                   = current_index_ dl
                     + Z.min (batch_size_ dl) (indices_size dl - current_index_ dl))
        by (unfold end_index; rewrite Hsum; lia).
      destruct (@nextBatch_all_ok dl (proj1 Hc)
                  (Forall_firstn_skipn _ _ Hok))
        as (batch & dl1 & Hnext & Hsamples & Hlen & Hcfg & Hcur).
      destruct Hcfg as (Hd1 & Hb1 & Hs1 & Hi1).
      assert (Hsize1 : indices_size dl1 = indices_size dl)
        by (unfold indices_size; now rewrite Hi1).
      pose proof vector_max_size_twice as Hmax.
      destruct (IH dl1) as (batches & dl2 & Hrun & Hcfg2 & Hcur2 & Hsam2 & Hlens2).
      * rewrite Hcur, Hsize1, He. lia.
      * now rewrite Hsize1.
      * now rewrite Hb1.
      * rewrite Hcur, Hb1, Hsize1, He. lia.
      * now rewrite Hd1, Hi1.
      * rewrite Hcur, Hsize1, He. lia.
      * exists (batch :: batches), dl2.
        assert (Hglue : batch_indices dl
                          ++ skipn (Z.to_nat (current_index_ dl1)) (indices_ dl1)
                        = skipn (Z.to_nat (current_index_ dl)) (indices_ dl)).
        { unfold batch_indices. rewrite Hi1, Hcur.
          replace (Z.to_nat (end_index dl))
            with (Z.to_nat (current_index_ dl)
                  + Z.to_nat (end_index dl - current_index_ dl))%nat by lia.
          apply firstn_skipn_glue. }
        simpl. rewrite (proj2 (hasNext_true_iff dl) Hlt), Hnext, Hrun, Hglue.
        split; [reflexivity|]. split.
        { apply same_config_trans with dl1; [repeat split; assumption | assumption]. }
        split; [now rewrite Hcur2|]. split.
        { rewrite <- Hglue. apply samples_of_app; [assumption|].
          now rewrite <- Hd1. }
        { apply epoch_lengths_step; [lia | lia | lia |].
          rewrite Hb1, Hsize1, Hcur, He in Hlens2.
          replace (indices_size dl - current_index_ dl
                   - Z.min (batch_size_ dl) (indices_size dl - current_index_ dl))
            with (indices_size dl
                  - (current_index_ dl
                     + Z.min (batch_size_ dl) (indices_size dl - current_index_ dl)))
            by lia.
          exact Hlens2. }
Qed.

End DataLoaderFacts.

(** ** Construction and reachable loaders *)

Section Reachable.

Context {Engine : Type} {Shuffle : StdShuffle Engine} {Memory : Allocator}.
Variable SampleType : Type.

(** Construction succeeds when [indices_] fits a vector and the heap
    grants it, whatever [batch_size] is. *)
Lemma DataLoader_new_ok : forall (d : Dataset SampleType) B sh (g : Engine),
  size d <= vector_max_size -> allocates (size d) = true ->
  DataLoader_new d B sh g
  = Ok {| dataset_ := d; batch_size_ := B; shuffle_ := sh;
          indices_ := if sh then std_shuffle g (iota (Z.to_nat (size d)) 0)
                      else iota (Z.to_nat (size d)) 0;
          current_index_ := 0 |}.
Proof.
  intros d B sh g Hsize Halloc. unfold DataLoader_new.
  replace (vector_max_size <? size d) with false
    by (symmetry; apply Z.ltb_ge; lia).
  now rewrite Halloc.
Qed.

Lemma DataLoader_new_inv : forall (d : Dataset SampleType) B sh (g : Engine) dl,
  DataLoader_new d B sh g = Ok dl ->
  size d <= vector_max_size /\ allocates (size d) = true /\
  dataset_ dl = d /\ batch_size_ dl = B /\ shuffle_ dl = sh /\
  current_index_ dl = 0 /\
  indices_ dl = (if sh then std_shuffle g (iota (Z.to_nat (size d)) 0)
                 else iota (Z.to_nat (size d)) 0).
Proof.
  intros d B sh g dl. unfold DataLoader_new.
  destruct (vector_max_size <? size d) eqn:Hmax; [discriminate|].
  destruct (allocates (size d)) eqn:Halloc; [|discriminate]. simpl.
  intros [= <-]. apply Z.ltb_ge in Hmax. now repeat split.
Qed.

(** The only exceptions of the constructor are those of [resize]. *)
Lemma DataLoader_new_throws : forall (d : Dataset SampleType) B sh (g : Engine) e,
  DataLoader_new d B sh g = Throw e -> e = length_error \/ e = bad_alloc.
Proof.
  intros d B sh g e. unfold DataLoader_new.
  destruct (vector_max_size <? size d); [intros [= <-]; now left|].
  destruct (allocates (size d)); simpl; [discriminate|].
  intros [= <-]. now right.
Qed.

(** Every index a valid dataset is asked for along a permutation of
    [0 .. size-1] has a sample. *)
Lemma valid_indices_all_ok : forall (d : Dataset SampleType) indices,
  0 <= size d -> dataset_valid d ->
  Permutation (natural_order (Z.to_nat (size d))) indices ->
  Forall (fun index => exists sample, getItem d index = Ok sample) indices.
Proof.
  intros d indices Hsize Hvalid Hperm. apply Forall_forall. intros index Hin.
  apply Hvalid. apply Permutation_sym in Hperm.
  apply (Permutation_in _ Hperm), natural_order_In in Hin. lia.
Qed.

(** What holds of every loader a client can hold, whatever the size of
    the dataset: [indices_] is a rearrangement of what [std::iota] wrote,
    and the cursor is within it. *)
Lemma reachable_inv : forall (d : Dataset SampleType) B sh dl,
  0 <= size d -> reachable d B sh dl ->
  dataset_ dl = d /\ batch_size_ dl = B /\ shuffle_ dl = sh /\
  Permutation (iota (Z.to_nat (size d)) 0) (indices_ dl) /\
  (sh = false -> indices_ dl = iota (Z.to_nat (size d)) 0) /\
  indices_size dl = size d /\
  0 <= current_index_ dl <= size d.
Proof.
  intros d B sh dl Hsize Hreach. induction Hreach as [g dl Hnew | op dl Hreach IH].
  - apply DataLoader_new_inv in Hnew.
    destruct Hnew as (Hmax & _ & Hd & Hb & Hs & Hc & Hi).
    assert (Hperm : Permutation (iota (Z.to_nat (size d)) 0) (indices_ dl)).
    { rewrite Hi. destruct sh; [apply std_shuffle_perm | apply Permutation_refl]. }
    repeat split; try assumption; try lia.
    + intros ->. exact Hi.
    + unfold indices_size. rewrite <- (Permutation_length Hperm), iota_length. lia.
  - destruct IH as (Hd & Hb & Hs & Hperm & Hid & Hn & Hc).
    destruct op as [| |g]; simpl.
    + now repeat split.
    + destruct (nextBatch_frame dl) as ((Hd' & Hb' & Hs' & Hi') & Hcur).
      assert (Hn' : indices_size (snd (nextBatch dl)) = size d)
        by (unfold indices_size in *; now rewrite Hi').
      pose proof (end_index_le_size dl). pose proof (end_index_nonneg dl).
      rewrite Hd', Hb', Hs', Hi'.
      repeat split; try assumption; destruct Hcur as [-> | ->]; lia.
    + unfold reset, indices_size in *. simpl. rewrite Hs. repeat split; try assumption.
      * destruct sh; [|assumption].
        eapply Permutation_trans; [exact Hperm | apply std_shuffle_perm].
      * intros ->. now apply Hid.
      * destruct sh; [rewrite std_shuffle_length|]; assumption.
      * lia.
Qed.

(** Over a dataset of at most [INT_MAX] samples what [std::iota] wrote is
    [0 .. size-1]. *)
Lemma reachable_natural : forall (d : Dataset SampleType) B sh dl,
  0 <= size d <= Int32.max -> reachable d B sh dl ->
  Permutation (natural_order (Z.to_nat (size d))) (indices_ dl) /\
  (sh = false -> indices_ dl = natural_order (Z.to_nat (size d))).
Proof.
  intros d B sh dl Hsize Hreach.
  destruct (reachable_inv (proj1 Hsize) Hreach) as (_ & _ & _ & Hperm & Hid & _).
  rewrite iota_natural_order in Hperm, Hid by lia. now split.
Qed.

End Reachable.

(** ** The epoch that follows a construction *)

Section Epoch.

Context {Engine : Type} {Shuffle : StdShuffle Engine} {Memory : Allocator}.
Variable SampleType : Type.

(** The loop keeps the loader's configuration. *)
Lemma run_epoch_same_config :
  forall fuel (dl : DataLoader SampleType) out calls dl',
    run_epoch fuel dl = Some (out, calls, dl') -> same_config dl dl'.
Proof.
  induction fuel as [|fuel IH]; intros dl out calls dl' Hrun; simpl in Hrun;
    destruct (hasNext dl); try discriminate;
    try (injection Hrun as <- <- <-; apply same_config_refl).
  pose proof (nextBatch_frame dl) as [Hframe _].
  destruct (nextBatch dl) as [[[batch|e0] calls0] dl0]; simpl in Hframe.
  - destruct (run_epoch fuel dl0) as [[[[batches|e1] calls1] dl1]|] eqn:Hrest;
      try discriminate; injection Hrun as <- <- <-;
      (apply same_config_trans with dl0; [assumption | eapply IH; eassumption]).
  - injection Hrun as <- <- <-. assumption.
Qed.


(** A whole epoch from any reachable loader whose cursor is at 0, over
    a valid dataset of at most [INT_MAX] samples. *)
Lemma epoch_from_start :
  forall (d : Dataset SampleType) B sh (dl : DataLoader SampleType) fuel,
    0 <= size d <= Int32.max -> dataset_valid d ->
    1 <= B <= SizeT.max -> reachable d B sh dl -> current_index_ dl = 0 ->
    (Z.to_nat (size d) <= fuel)%nat ->
    exists batches dl',
      run_epoch fuel dl = Some (Ok batches, indices_ dl, dl') /\
      hasNext dl' = false /\
      Permutation (natural_order (Z.to_nat (size d))) (indices_ dl) /\
      (sh = false -> indices_ dl = natural_order (Z.to_nat (size d))) /\
      samples_of d (indices_ dl) (concat batches) /\
      epoch_lengths B (size d) batches.
Proof.
  intros d B sh dl fuel Hsize Hvalid HB Hreach Hc Hfuel.
  destruct (reachable_inv (proj1 Hsize) Hreach) as (Hd & Hb & _ & _ & _ & Hn & _).
  destruct (reachable_natural Hsize Hreach) as (Hperm & Hid).
  assert (Hmax : Int32.max <= vector_max_size) by now vm_compute.
  destruct (@run_epoch_from SampleType fuel dl)
    as (batches & dl' & Hrun & Hcfg & Hcur & Hsam & Hlens).
  - rewrite Hc, Hn. lia.
  - rewrite Hn. lia.
  - now rewrite Hb.
  - left. rewrite Hc, Hb. lia.
  - rewrite Hd. apply valid_indices_all_ok; [lia | assumption..].
  - rewrite Hc, Hn, Z.sub_0_r. exact Hfuel.
  - rewrite Hc in Hrun, Hsam. simpl skipn in Hrun, Hsam.
    rewrite Hc, Hn, Hb, Z.sub_0_r in Hlens. rewrite Hd in Hsam.
    exists batches, dl'. split; [exact Hrun|]. split.
    { apply hasNext_false_iff. destruct Hcfg as (_ & _ & _ & Hi).
      unfold indices_size in *. rewrite Hi. lia. }
    now repeat split.
Qed.

End Epoch.

(** ** Invariants, reset and determinism *)

Section Invariants.

Context {Engine : Type} {Shuffle : StdShuffle Engine} {Memory : Allocator}.
Variable SampleType : Type.

(** [reset] on any loader value: the cursor is zeroed, and nothing else
    changes unless shuffling is on. *)
Lemma reset_frame : forall (g : Engine) (dl : DataLoader SampleType),
  current_index_ (reset g dl) = 0 /\
  dataset_ (reset g dl) = dataset_ dl /\
  batch_size_ (reset g dl) = batch_size_ dl /\
  shuffle_ (reset g dl) = shuffle_ dl /\
  indices_size (reset g dl) = indices_size dl /\
  (shuffle_ dl = false -> indices_ (reset g dl) = indices_ dl).
Proof.
  intros g dl. unfold reset, indices_size. simpl. repeat split.
  - destruct (shuffle_ dl); [now rewrite std_shuffle_length | reflexivity].
  - now intros ->.
Qed.

(** Length, distinctness and membership of [indices_] over a dataset of
    at most [INT_MAX] samples. *)
Lemma small_dataset_indices :
  forall (d : Dataset SampleType) (B : Z) (sh : bool) (dl : DataLoader SampleType),
    0 <= size d <= Int32.max ->
    reachable d B sh dl ->
    length (indices_ dl) = Z.to_nat (size d) /\
    NoDup (indices_ dl) /\
    (forall index, In index (indices_ dl) <-> 0 <= index < size d).
Proof.
  intros d B sh dl Hsize Hreach.
  destruct (reachable_natural Hsize Hreach) as (Hperm & _).
  split.
  { rewrite <- (Permutation_length Hperm). apply natural_order_length. }
  split.
  { eapply Permutation_NoDup; [exact Hperm | apply natural_order_NoDup]. }
  intros index. split.
  - intros Hin. apply Permutation_sym in Hperm.
    apply (Permutation_in _ Hperm), natural_order_In in Hin. lia.
  - intros Hrange. apply (Permutation_in _ Hperm), natural_order_In. lia.
Qed.

(** X12. Over a dataset of at most [INT_MAX] samples, every loader
    reached from a construction by [hasNext], [nextBatch] and [reset]
    calls in any order keeps [indices_] a permutation of [0 .. size-1]
    (the natural order itself when shuffling is off) and its cursor
    within [0, size]; it is exhausted exactly when the cursor is [size]. *)
Theorem small_dataset_loader_invariant :
  forall (d : Dataset SampleType) (B : Z) (sh : bool) (dl : DataLoader SampleType),
    0 <= size d <= Int32.max ->
    reachable d B sh dl ->
    length (indices_ dl) = Z.to_nat (size d) /\
    NoDup (indices_ dl) /\
    (forall index, In index (indices_ dl) <-> 0 <= index < size d) /\
    (sh = false -> indices_ dl = natural_order (Z.to_nat (size d))) /\
    0 <= current_index_ dl <= size d /\
    (hasNext dl = false <-> current_index_ dl = size d).
Proof.
  intros d B sh dl Hsize Hreach.
  destruct (reachable_inv (proj1 Hsize) Hreach) as (_ & _ & _ & _ & _ & Hn & Hc).
  destruct (reachable_natural Hsize Hreach) as (_ & Hid).
  destruct (small_dataset_indices Hsize Hreach)
    as (Hlen & Hnodup & Hmem).
  split; [exact Hlen|]. split; [exact Hnodup|]. split; [exact Hmem|].
  split; [exact Hid|]. split; [exact Hc|].
  rewrite hasNext_false_iff. lia.
Qed.

(** With shuffling off a reset gives back the loader as constructed. *)
Lemma reset_restores_unshuffled :
  forall (d : Dataset SampleType) B (g g' : Engine) dl dl',
    DataLoader_new d B false g = Ok dl ->
    same_config dl dl' -> reset g' dl' = dl.
Proof.
  intros d B g g' dl dl' Hnew (Hd & Hb & Hs & Hi).
  apply DataLoader_new_inv in Hnew.
  destruct Hnew as (_ & _ & _ & _ & Hsh & Hc & _).
  unfold reset. rewrite Hd, Hb, Hs, Hi, Hsh.
  destruct dl as [d0 B0 sh0 idx0 c0]. simpl in Hsh, Hc |- *.
  now rewrite Hsh, Hc.
Qed.

(** C8. With shuffling off, two loaders built over the same dataset with
    the same batch size, whatever their random engines, take the client's
    loop through the same outcome -- the same batches in the same order,
    the same indices read -- and so does the first one again after a
    [reset]; over a valid dataset of at most [INT_MAX] samples that
    outcome is a whole epoch in the natural order. *)
Theorem unshuffled_traversals_identical :
  forall (d : Dataset SampleType) (B : Z) (g1 g2 g3 : Engine) (fuel : nat)
         (dl1 dl2 : DataLoader SampleType),
    DataLoader_new d B false g1 = Ok dl1 ->
    DataLoader_new d B false g2 = Ok dl2 ->
    run_epoch fuel dl1 = run_epoch fuel dl2 /\
    (forall out calls dl1',
        run_epoch fuel dl1 = Some (out, calls, dl1') ->
        run_epoch fuel (reset g3 dl1') = Some (out, calls, dl1')) /\
    (0 <= size d <= Int32.max -> dataset_valid d -> 1 <= B <= SizeT.max ->
     (Z.to_nat (size d) <= fuel)%nat ->
     exists batches dl1',
       run_epoch fuel dl1
         = Some (Ok batches, natural_order (Z.to_nat (size d)), dl1') /\
       hasNext dl1' = false /\
       samples_of d (natural_order (Z.to_nat (size d))) (concat batches)).
Proof.
  intros d B g1 g2 g3 fuel dl1 dl2 Hnew1 Hnew2.
  assert (Hsame : dl2 = dl1).
  { unfold DataLoader_new in Hnew1, Hnew2.
    destruct (vector_max_size <? size d); [discriminate|].
    destruct (negb (allocates (size d))); [discriminate|]. congruence. }
  subst dl2. split; [reflexivity|]. split.
  - intros out calls dl1' Hrun.
    rewrite (@reset_restores_unshuffled d B g1 g3 dl1 dl1' Hnew1
               (run_epoch_same_config _ _ Hrun)).
    exact Hrun.
  - intros Hsize Hvalid HB Hfuel.
    assert (Hc : current_index_ dl1 = 0)
      by (apply DataLoader_new_inv in Hnew1; tauto).
    destruct (epoch_from_start Hsize Hvalid HB (reachable_new _ _ _ _ Hnew1)
                Hc Hfuel)
      as (batches & dl' & Hrun & Hend & _ & Hid & Hsam & _).
    rewrite (Hid eq_refl) in Hrun, Hsam. exists batches, dl'. now repeat split.
Qed.

(** X11. Over a valid dataset of at most [INT_MAX] samples, with a batch
    size of at least 1, the epoch that follows a construction ends
    exhausted, having handed [getItem] each index of [0 .. size-1]
    exactly once -- in the natural order when shuffling is off; its
    batches, put end to end, hold the samples of these indices, [size]
    of them, each batch of [batch_size] samples but the last, which has
    [size mod batch_size], or [batch_size] when that is zero. *)
Theorem construction_epoch_reads_every_sample :
  forall (d : Dataset SampleType) (B : Z) (sh : bool) (g : Engine) (fuel : nat)
         (dl : DataLoader SampleType),
    DataLoader_new d B sh g = Ok dl ->
    0 <= size d <= Int32.max -> dataset_valid d ->
    1 <= B <= SizeT.max -> (Z.to_nat (size d) <= fuel)%nat ->
    exists batches visited dl',
      run_epoch fuel dl = Some (Ok batches, visited, dl') /\
      hasNext dl' = false /\
      length visited = Z.to_nat (size d) /\ NoDup visited /\
      (forall index, In index visited <-> 0 <= index < size d) /\
      (sh = false -> visited = natural_order (Z.to_nat (size d))) /\
      samples_of d visited (concat batches) /\
      Z.of_nat (length (concat batches)) = size d /\
      epoch_lengths B (size d) batches.
Proof.
  intros d B sh g fuel dl Hnew Hsize Hvalid HB Hfuel.
  assert (Hc : current_index_ dl = 0)
    by (apply DataLoader_new_inv in Hnew; tauto).
  pose proof (reachable_new _ _ _ _ Hnew) as Hreach.
  destruct (epoch_from_start Hsize Hvalid HB Hreach Hc Hfuel)
    as (batches & dl' & Hrun & Hend & _ & Hid & Hsam & Hlens).
  destruct (small_dataset_indices Hsize Hreach)
    as (Hlen & Hnodup & Hmem).
  exists batches, (indices_ dl), dl'. repeat split; try assumption;
    try (now apply Hmem).
  rewrite (samples_of_length Hsam), Hlen. lia.
Qed.

(** X3. From any reachable loader over a valid dataset of at most
    [INT_MAX] samples -- fresh, in the middle of an epoch, exhausted, or
    left behind by a call that threw -- [reset] starts a whole new epoch:
    the loop then ends exhausted, having read each index of
    [0 .. size-1] exactly once (in natural order when shuffling is off),
    with the batch lengths of a first epoch. *)
Theorem reset_starts_full_epoch :
  forall (d : Dataset SampleType) (B : Z) (sh : bool)
         (dl : DataLoader SampleType) (g : Engine) (fuel : nat),
    0 <= size d <= Int32.max -> dataset_valid d ->
    1 <= B <= SizeT.max -> reachable d B sh dl ->
    (Z.to_nat (size d) <= fuel)%nat ->
    exists batches visited dl',
      run_epoch fuel (reset g dl) = Some (Ok batches, visited, dl') /\
      hasNext dl' = false /\
      length visited = Z.to_nat (size d) /\ NoDup visited /\
      (forall index, In index visited <-> 0 <= index < size d) /\
      (sh = false -> visited = natural_order (Z.to_nat (size d))) /\
      samples_of d visited (concat batches) /\
      Z.of_nat (length (concat batches)) = size d /\
      epoch_lengths B (size d) batches.
Proof.
  intros d B sh dl g fuel Hsize Hvalid HB Hreach Hfuel.
  pose proof (reachable_step (op_reset g) Hreach) as Hreach'. simpl in Hreach'.
  destruct (epoch_from_start Hsize Hvalid HB Hreach' eq_refl Hfuel)
    as (batches & dl' & Hrun & Hend & _ & Hid & Hsam & Hlens).
  destruct (small_dataset_indices Hsize Hreach')
    as (Hlen & Hnodup & Hmem).
  exists batches, (indices_ (reset g dl)), dl'. repeat split; try assumption;
    try (now apply Hmem).
  rewrite (samples_of_length Hsam), Hlen. lia.
Qed.

(** X13. On every reachable loader, whatever the size of the dataset,
    [reset] sets the cursor to 0, so that [hasNext()] is true afterwards
    exactly when [size > 0]; with shuffling off it leaves [indices_] as
    it was, and in any case of the same length; [batch_size_],
    [shuffle_] and the dataset reference are as before. *)
Theorem reset_zeroes_cursor_and_keeps_configuration :
  forall (d : Dataset SampleType) (B : Z) (sh : bool) (dl : DataLoader SampleType)
         (g : Engine),
    0 <= size d ->
    reachable d B sh dl ->
    current_index_ (reset g dl) = 0 /\
    (hasNext (reset g dl) = true <-> 0 < size d) /\
    (sh = false -> indices_ (reset g dl) = indices_ dl) /\
    length (indices_ (reset g dl)) = length (indices_ dl) /\
    batch_size_ (reset g dl) = batch_size_ dl /\
    shuffle_ (reset g dl) = shuffle_ dl /\
    dataset_ (reset g dl) = dataset_ dl.
Proof.
  intros d B sh dl g Hsize Hreach.
  destruct (reachable_inv Hsize Hreach) as (_ & _ & Hs & _ & _ & Hn & _).
  destruct (reset_frame g dl) as (Hc & Hd' & Hb' & Hs' & Hn' & Hi').
  split; [exact Hc|]. split.
  { rewrite hasNext_true_iff. lia. }
  split; [intros ->; now apply Hi'|].
  split; [unfold indices_size in Hn'; lia|]. now repeat split.
Qed.

End Invariants.

(** ** The unguarded corners of construction and nextBatch *)

Section Corners.

Context {Engine : Type} {Shuffle : StdShuffle Engine} {Memory : Allocator}.
Variable SampleType : Type.

(** When [end_index] falls on the cursor the call is a no-op: an empty
    batch, no [getItem] call, the loader as it was. *)
Lemma nextBatch_at_fixed_end : forall dl : DataLoader SampleType,
  end_index dl = current_index_ dl -> nextBatch dl = (Ok [], [], dl).
Proof.
  intros dl H. unfold nextBatch. rewrite H, Z.sub_diag. simpl.
  destruct dl; reflexivity.
Qed.

(** When that happens: with a zero batch size, or at exhaustion provided
    the unsigned sum [current_index_ + batch_size_] does not wrap. *)
Lemma end_index_fixed_iff : forall dl : DataLoader SampleType,
  0 <= current_index_ dl <= indices_size dl ->
  indices_size dl <= SizeT.max ->
  0 <= batch_size_ dl <= SizeT.max ->
  (end_index dl = current_index_ dl <->
   batch_size_ dl = 0 \/
   (current_index_ dl = indices_size dl /\
    current_index_ dl + batch_size_ dl <= SizeT.max)).
Proof.
  intros dl Hc HN HB. unfold end_index, SizeT.add, SizeT.wrap.
  pose proof SizeT_modulus_pos as Hm. unfold SizeT.max in *.
  destruct (Z_lt_le_dec (current_index_ dl + batch_size_ dl) SizeT.modulus)
    as [Hsmall|Hwrap].
  - rewrite Z.mod_small by lia. lia.
  - replace ((current_index_ dl + batch_size_ dl) mod SizeT.modulus)
      with (current_index_ dl + batch_size_ dl - SizeT.modulus).
    + lia.
    + apply Zmod_unique with 1; lia.
Qed.

(** With a zero batch size over a loader that is not exhausted, the
    client's loop never ends: whatever the fuel, it runs out. *)
Lemma zero_batch_size_never_progresses : forall fuel (dl : DataLoader SampleType),
  batch_size_ dl = 0 ->
  0 <= current_index_ dl < indices_size dl ->
  indices_size dl <= SizeT.max ->
  run_epoch fuel dl = None.
Proof.
  intros fuel dl HB Hc HN.
  assert (Hfix : nextBatch dl = (Ok [], [], dl)).
  { apply nextBatch_at_fixed_end. unfold end_index.
    rewrite HB, SizeT_add_small by lia. lia. }
  assert (Hnext : hasNext dl = true) by (apply hasNext_true_iff; lia).
  induction fuel as [|fuel IH]; simpl; rewrite Hnext; [reflexivity|].
  now rewrite Hfix, IH.
Qed.

(** C5 (amended). Construction does not look at [batch_size], and has no
    invalid-configuration error to raise: whenever it succeeds over a
    dataset with some batch size, it succeeds with batch size 0 too (same
    dataset, shuffle flag and engine) and gives the same loader but for
    [batch_size_ = 0]; over a non-empty dataset that loader has
    [hasNext()] true and a [nextBatch()] that returns an empty batch and
    leaves it as it was. *)
Theorem construction_accepts_any_batch_size :
  forall (d : Dataset SampleType) (B : Z) (sh : bool) (g : Engine)
         (dl : DataLoader SampleType),
    DataLoader_new d B sh g = Ok dl ->
    exists dl0,
      DataLoader_new d 0 sh g = Ok dl0 /\
      batch_size_ dl0 = 0 /\
      dataset_ dl0 = dataset_ dl /\ shuffle_ dl0 = shuffle_ dl /\
      indices_ dl0 = indices_ dl /\ current_index_ dl0 = current_index_ dl /\
      (0 < size d -> hasNext dl0 = true /\ nextBatch dl0 = (Ok [], [], dl0)).
Proof.
  intros d B sh g dl Hnew.
  destruct (DataLoader_new_inv _ _ _ _ Hnew)
    as (Hmax & Halloc & Hd & _ & Hs & Hc & Hi).
  pose proof (DataLoader_new_ok d 0 sh g Hmax Halloc) as Hnew0.
  eexists. split; [exact Hnew0|]. simpl.
  rewrite Hd, Hs, Hc, Hi. repeat split.
  - apply hasNext_true_iff. unfold indices_size. simpl.
    destruct sh; [rewrite std_shuffle_length|]; rewrite iota_length; lia.
  - apply nextBatch_at_fixed_end. unfold end_index. simpl.
    change (SizeT.add 0 0) with 0.
    pose proof (Nat2Z.is_nonneg (length (if sh
                  then std_shuffle g (iota (Z.to_nat (size d)) 0)
                  else iota (Z.to_nat (size d)) 0))).
    unfold indices_size. simpl. lia.
Qed.

(** C6 (amended). On an exhausted loader [nextBatch()] does not fail: it
    returns an empty batch, calls [getItem] not once, and leaves the
    dataset reference, batch size, shuffle flag and index order alone. *)
Theorem nextBatch_when_exhausted_returns_empty :
  forall dl : DataLoader SampleType,
    hasNext dl = false ->
    exists dl', nextBatch dl = (Ok [], [], dl') /\ same_config dl dl'.
Proof.
  intros dl Hex. apply hasNext_false_iff in Hex.
  pose proof (end_index_le_size dl) as He. unfold nextBatch.
  replace (Z.to_nat (end_index dl - current_index_ dl)) with 0%nat by lia.
  simpl. eexists. split; [reflexivity | now repeat split].
Qed.

(** A call of [nextBatch] is all or nothing, in every state: if each
    [getItem] on [indices_[current_index_ .. end_index)] succeeds, the
    batch holds their samples in order -- [end_index - current_index_] of
    them -- and the cursor becomes [end_index]; if one throws, the call
    throws, no batch is returned and the loader is as before the call. *)
Theorem nextBatch_all_or_nothing :
  forall dl : DataLoader SampleType,
    0 <= current_index_ dl ->
    (Forall (fun index => exists sample, getItem (dataset_ dl) index = Ok sample)
            (batch_indices dl) ->
     exists batch dl',
       nextBatch dl = (Ok batch, batch_indices dl, dl') /\
       samples_of (dataset_ dl) (batch_indices dl) batch /\
       length batch = Z.to_nat (end_index dl - current_index_ dl) /\
       (current_index_ dl <= end_index dl ->
        Z.of_nat (length batch) = end_index dl - current_index_ dl) /\
       same_config dl dl' /\ current_index_ dl' = end_index dl)
    /\
    (Exists (fun index => exists e, getItem (dataset_ dl) index = Throw e)
            (batch_indices dl) ->
     exists e calls, nextBatch dl = (Throw e, calls, dl)).
Proof.
  intros dl Hc. split.
  - intros Hok.
    destruct (nextBatch_all_ok dl Hc Hok)
      as (batch & dl' & Hnext & Hsam & Hlen & Hcfg & Hcur).
    exists batch, dl'. repeat split; try assumption; try apply Hcfg.
    intros Hle. rewrite Hlen. lia.
  - intros Hbad. now apply nextBatch_some_throw.
Qed.

End Corners.

(** ** Further properties of the loop *)

Section LoopFacts.

Context {Engine : Type} {Shuffle : StdShuffle Engine}.
Variable SampleType : Type.

(** The loop leaves at the first entry whose [getItem] throws: the calls
    made are the entries before it, which all succeeded, and that one. *)
Lemma for_loop_throw_prefix :
  forall (d : Dataset SampleType) indices n i batch calls e calls',
    0 <= i -> (n = 0 \/ Z.to_nat i + n <= length indices)%nat ->
    for_loop d indices i n batch calls = (Throw e, calls') ->
    exists before index after,
      firstn n (skipn (Z.to_nat i) indices) = before ++ index :: after /\
      calls' = calls ++ before ++ [index] /\
      getItem d index = Throw e /\
      Forall (fun k => exists sample, getItem d k = Ok sample) before.
Proof.
  intros d indices n. induction n as [|n IH];
    intros i batch calls e calls' Hi Hn Hrun; simpl in Hrun.
  - discriminate.
  - assert (Hlen : (Z.to_nat i + S n <= length indices)%nat) by lia.
    rewrite (@skipn_nth_cons indices (Z.to_nat i)) by lia. rewrite firstn_cons.
    destruct (getItem d (nth (Z.to_nat i) indices 0)) as [sample|e0] eqn:Hget.
    + apply IH in Hrun; [|lia | right; lia].
      replace (Z.to_nat (i + 1)) with (S (Z.to_nat i)) in Hrun by lia.
      destruct Hrun as (before & index & after & Hseg & Hcalls & He & Hok).
      exists (nth (Z.to_nat i) indices 0 :: before), index, after.
      repeat split.
      * rewrite Hseg. reflexivity.
      * rewrite Hcalls, <- app_assoc. reflexivity.
      * assumption.
      * constructor; eauto.
    + injection Hrun as <- <-.
      exists [], (nth (Z.to_nat i) indices 0),
             (firstn n (skipn (S (Z.to_nat i)) indices)).
      repeat split; [assumption | constructor].
Qed.

Lemma nextBatch_throw_prefix_aux :
  forall (dl : DataLoader SampleType) e calls dl',
    0 <= current_index_ dl ->
    nextBatch dl = (Throw e, calls, dl') ->
    exists before index after,
      batch_indices dl = before ++ index :: after /\
      calls = before ++ [index] /\
      getItem (dataset_ dl) index = Throw e /\
      Forall (fun k => exists sample, getItem (dataset_ dl) k = Ok sample) before.
Proof.
  intros dl e calls dl' Hc Hnext. unfold nextBatch in Hnext.
  destruct (for_loop _ _ _ _ _ _) as [[batch|e0] calls0] eqn:Hloop;
    [discriminate|].
  injection Hnext as <- <- <-.
  apply for_loop_throw_prefix in Hloop;
    [| assumption | apply nextBatch_bound; assumption].
  destruct Hloop as (before & index & after & Hseg & Hcalls & He & Hok).
  exists before, index, after. now repeat split.
Qed.

(** X6. A [nextBatch] that throws stopped at the first unreadable entry
    of its batch: it called [getItem] on the entries before it, which all
    succeeded, then on that entry, whose exception is the one thrown, and
    on none after it; the loader is as before the call. *)
Theorem nextBatch_throw_is_first_failure :
  forall (dl : DataLoader SampleType) e calls dl',
    0 <= current_index_ dl ->
    nextBatch dl = (Throw e, calls, dl') ->
    dl' = dl /\
    exists before index after,
      batch_indices dl = before ++ index :: after /\
      calls = before ++ [index] /\
      getItem (dataset_ dl) index = Throw e /\
      Forall (fun k => exists sample, getItem (dataset_ dl) k = Ok sample) before.
Proof.
  intros dl e calls dl' Hc Hnext. split.
  - unfold nextBatch in Hnext.
    destruct (for_loop _ _ _ _ _ _) as [[batch|e0] calls0]; [discriminate|].
    now injection Hnext as _ _ <-.
  - now apply nextBatch_throw_prefix_aux with dl'.
Qed.

(** X8. When the client's loop is ended by an exception, the loader is
    left on the batch that failed: it is not exhausted, only its cursor
    may differ from the loader the loop started with, and calling
    [nextBatch] again throws the same exception and leaves it there. *)
Theorem failed_epoch_rests_on_failed_batch :
  forall fuel (dl : DataLoader SampleType) e calls dl',
    run_epoch fuel dl = Some (Throw e, calls, dl') ->
    hasNext dl' = true /\ same_config dl dl' /\
    exists last_calls, nextBatch dl' = (Throw e, last_calls, dl').
Proof.
  induction fuel as [|fuel IH]; intros dl e calls dl' Hrun; simpl in Hrun;
    destruct (hasNext dl) eqn:Hnext; try discriminate.
  destruct (nextBatch dl) as [[[batch|e0] calls0] dl0] eqn:Hbatch.
  - destruct (run_epoch fuel dl0) as [[[[batches|e1] calls1] dl1]|] eqn:Hrest;
      try discriminate.
    injection Hrun as <- <- <-.
    destruct (IH _ _ _ _ Hrest) as (Hn & Hcfg & Hagain).
    split; [assumption|]. split; [|assumption].
    apply same_config_trans with dl0; [|assumption].
    pose proof (nextBatch_frame dl) as [Hframe _]. now rewrite Hbatch in Hframe.
  - injection Hrun as <- <- <-.
    assert (Hsame : dl0 = dl).
    { unfold nextBatch in Hbatch.
      destruct (for_loop _ _ _ _ _ _) as [[b|ex] cs]; [discriminate|].
      now injection Hbatch as _ _ <-. }
    subst dl0. split; [assumption|]. split; [apply same_config_refl|eauto].
Qed.

(** X9. On a loader that is not exhausted, with a batch size of at least
    1 that the cursor can take without wrapping and readable entries,
    [nextBatch] returns [min(batch_size_, size - current_index_)] samples,
    at least one, and moves the cursor forward by as many. *)
Theorem nextBatch_makes_progress :
  forall dl : DataLoader SampleType,
    0 <= current_index_ dl < indices_size dl ->
    1 <= batch_size_ dl ->
    current_index_ dl + batch_size_ dl <= SizeT.max ->
    Forall (fun index => exists sample, getItem (dataset_ dl) index = Ok sample)
           (batch_indices dl) ->
    exists batch dl',
      nextBatch dl = (Ok batch, batch_indices dl, dl') /\
      Z.of_nat (length batch)
        = Z.min (batch_size_ dl) (indices_size dl - current_index_ dl) /\
      (1 <= length batch)%nat /\
      current_index_ dl' = current_index_ dl + Z.of_nat (length batch) /\
      current_index_ dl' <= indices_size dl.
Proof.
  intros dl Hc HB Hwrap Hok.
  destruct (nextBatch_all_ok dl (proj1 Hc) Hok)
    as (batch & dl' & Hnext & _ & Hlen & _ & Hcur).
  assert (He : end_index dl
               = current_index_ dl
                 + Z.min (batch_size_ dl) (indices_size dl - current_index_ dl)).
  { unfold end_index. rewrite SizeT_add_small by lia. lia. }
  exists batch, dl'. rewrite Hcur, Hlen, He. repeat split; try lia. exact Hnext.
Qed.

End LoopFacts.

Section EpochShape.

Context {Engine : Type} {Shuffle : StdShuffle Engine} {Memory : Allocator}.
Variable SampleType : Type.

Lemma concat_uniform_length : forall B (front : list (list SampleType)),
  Forall (fun b => Z.of_nat (length b) = B) front ->
  Z.of_nat (length (concat front)) = Z.of_nat (length front) * B.
Proof.
  intros B front H. induction H as [|b front Hb _ IH]; [reflexivity|].
  cbn [concat length].
  rewrite length_app, Nat2Z.inj_add, Nat2Z.inj_succ, IH, Hb. lia.
Qed.

Lemma epoch_lengths_count : forall B R (batches : list (list SampleType)),
  1 <= B -> 0 <= R ->
  epoch_lengths B R batches ->
  Z.of_nat (length (concat batches)) = R ->
  Z.of_nat (length batches) = (R + B - 1) / B.
Proof.
  intros B R batches HB HR Hlens Hsum. unfold epoch_lengths in Hlens.
  destruct (R =? 0) eqn:HR0.
  - apply Z.eqb_eq in HR0. subst. simpl.
    symmetry. apply Z.div_small. lia.
  - apply Z.eqb_neq in HR0.
    destruct Hlens as (front & last_batch & -> & Hfront & Hlast).
    rewrite concat_app, length_app in Hsum. simpl in Hsum.
    rewrite app_nil_r in Hsum.
    pose proof (concat_uniform_length Hfront) as Hk.
    rewrite length_app. simpl.
    assert (Hr : 1 <= Z.of_nat (length last_batch) <= B).
    { rewrite Hlast. pose proof (Z.mod_pos_bound R B ltac:(lia)).
      destruct (R mod B =? 0) eqn:Hm; [lia|]. apply Z.eqb_neq in Hm. lia. }
    apply Z.div_unique with (Z.of_nat (length last_batch) - 1); nia.
Qed.

(** X4. Over a valid dataset of at most [INT_MAX] samples, the epoch
    that follows a construction is made of [ceil(size / batch_size)]
    batches: [(size + batch_size - 1) / batch_size] calls of
    [nextBatch], none when the dataset is empty. *)
Theorem epoch_batch_count :
  forall (d : Dataset SampleType) (B : Z) (sh : bool) (g : Engine) (fuel : nat)
         (dl : DataLoader SampleType),
    DataLoader_new d B sh g = Ok dl ->
    0 <= size d <= Int32.max -> dataset_valid d ->
    1 <= B <= SizeT.max -> (Z.to_nat (size d) <= fuel)%nat ->
    exists batches visited dl',
      run_epoch fuel dl = Some (Ok batches, visited, dl') /\
      Z.of_nat (length batches) = (size d + B - 1) / B.
Proof.
  intros d B sh g fuel dl Hnew Hsize Hvalid HB Hfuel.
  assert (Hc : current_index_ dl = 0)
    by (apply DataLoader_new_inv in Hnew; tauto).
  destruct (epoch_from_start Hsize Hvalid HB (reachable_new _ _ _ _ Hnew)
              Hc Hfuel)
    as (batches & dl' & Hrun & _ & Hperm & _ & Hsam & Hlens).
  exists batches, (indices_ dl), dl'. split; [exact Hrun|].
  apply epoch_lengths_count; try lia; [assumption|].
  rewrite (samples_of_length Hsam), <- (Permutation_length Hperm),
    natural_order_length. lia.
Qed.

(** Batches whose concatenation reads a list of indexes, all full but
    the last, are the successive slices of that list. *)
Lemma batches_are_slices :
  forall (d : Dataset SampleType) (B : nat) front last_batch indexes,
    Forall (fun b : list SampleType => length b = B) front ->
    (length last_batch <= B)%nat ->
    samples_of d indexes (concat (front ++ [last_batch])) ->
    forall j, (j < length (front ++ [last_batch]))%nat ->
      samples_of d (firstn B (skipn (j * B) indexes))
                 (nth j (front ++ [last_batch]) []).
Proof.
  intros d B front last_batch.
  induction front as [|b front IH]; intros indexes Hfront Hlast Hsam j Hj.
  - simpl in *. rewrite app_nil_r in Hsam.
    assert (j = 0)%nat by lia. subst j. simpl.
    rewrite firstn_all2; [assumption|].
    rewrite <- (samples_of_length Hsam). assumption.
  - simpl in Hsam. apply Forall2_app_inv_r in Hsam.
    destruct Hsam as (l1 & l2 & Hs1 & Hs2 & ->).
    inversion Hfront as [|? ? Hb Hrest]; subst.
    assert (Hl1 : length l1 = length b) by (symmetry; apply (samples_of_length Hs1)).
    destruct j as [|j].
    + simpl. rewrite <- Hl1, firstn_app, firstn_all, Nat.sub_diag. simpl.
      now rewrite app_nil_r.
    + simpl nth.
      replace (S j * length b)%nat with (j * length b + length l1)%nat by lia.
      rewrite <- skipn_skipn, skipn_app, skipn_all, Nat.sub_diag. simpl skipn.
      apply IH; try assumption. simpl in Hj. lia.
Qed.

(** X5. Over a valid dataset of at most [INT_MAX] samples, the batches
    of the epoch that follows a construction are the successive slices
    of [indices_]: batch number [j] (from 0) holds the samples of
    [indices_[j*B .. (j+1)*B)], cut at [size] for the last. *)
Theorem epoch_batches_are_slices :
  forall (d : Dataset SampleType) (B : Z) (sh : bool) (g : Engine) (fuel : nat)
         (dl : DataLoader SampleType),
    DataLoader_new d B sh g = Ok dl ->
    0 <= size d <= Int32.max -> dataset_valid d ->
    1 <= B <= SizeT.max -> (Z.to_nat (size d) <= fuel)%nat ->
    exists batches visited dl',
      run_epoch fuel dl = Some (Ok batches, visited, dl') /\
      Z.of_nat (length batches) = (size d + B - 1) / B /\
      forall j, (j < length batches)%nat ->
        samples_of d (firstn (Z.to_nat B) (skipn (j * Z.to_nat B) (indices_ dl)))
                   (nth j batches []).
Proof.
  intros d B sh g fuel dl Hnew Hsize Hvalid HB Hfuel.
  assert (Hc : current_index_ dl = 0)
    by (apply DataLoader_new_inv in Hnew; tauto).
  destruct (epoch_from_start Hsize Hvalid HB (reachable_new _ _ _ _ Hnew)
              Hc Hfuel)
    as (batches & dl' & Hrun & _ & Hperm & _ & Hsam & Hlens).
  exists batches, (indices_ dl), dl'. split; [exact Hrun|]. split.
  { apply epoch_lengths_count; try lia; [assumption|].
    rewrite (samples_of_length Hsam), <- (Permutation_length Hperm),
      natural_order_length. lia. }
  intros j Hj. unfold epoch_lengths in Hlens.
  destruct (size d =? 0).
  - subst batches. simpl in Hj. lia.
  - destruct Hlens as (front & last_batch & -> & Hfront & Hlast).
    apply batches_are_slices; try assumption.
    + eapply Forall_impl; [|exact Hfront]. intros b Hb. simpl in Hb. lia.
    + pose proof (Z.mod_pos_bound (size d) B ltac:(lia)).
      destruct (size d mod B =? 0); lia.
Qed.

(** X7. Over an empty dataset no reachable loader ever has a next batch:
    [hasNext()] is false after construction and after every operation,
    the client's loop ends at once with no batch, and an unguarded
    [nextBatch()] returns an empty batch without calling [getItem] and
    leaves the loader as it was, whatever the batch size. *)
Theorem empty_dataset_never_has_next :
  forall (d : Dataset SampleType) (B : Z) (sh : bool)
         (dl : DataLoader SampleType) (fuel : nat),
    size d = 0 -> reachable d B sh dl ->
    hasNext dl = false /\
    run_epoch fuel dl = Some (Ok [], [], dl) /\
    nextBatch dl = (Ok [], [], dl).
Proof.
  intros d B sh dl fuel Hsize Hreach.
  destruct (reachable_inv (d := d) ltac:(lia) Hreach)
    as (_ & _ & _ & _ & _ & Hn & Hc).
  assert (Hex : hasNext dl = false) by (apply hasNext_false_iff; lia).
  split; [exact Hex|]. split; [now apply run_epoch_exhausted|].
  apply nextBatch_at_fixed_end.
  pose proof (end_index_le_size dl). pose proof (end_index_nonneg dl). lia.
Qed.

End EpochShape.

(** ** IntDataset behind a loader *)

Lemma IntDataset_read_all : forall data_ : list Z,
  map (fun index => nth (Z.to_nat index) data_ 0) (natural_order (length data_))
  = data_.
Proof.
  intros data_. unfold natural_order. rewrite map_map.
  transitivity (map (fun k => nth k data_ 0) (seq 0 (length data_))).
  - apply map_ext. intros k. now rewrite Nat2Z.id.
  - apply map_nth_seq.
Qed.

Lemma IntDataset_samples : forall data_ indexes samples,
  samples_of (IntDataset data_) indexes samples ->
  samples = map (fun index => nth (Z.to_nat index) data_ 0) indexes.
Proof.
  intros data_ indexes samples H. induction H as [|index sample ? ? Hget _ IH].
  - reflexivity.
  - simpl in Hget. destruct (index <? Z.of_nat (length data_)); [|discriminate].
    injection Hget as <-. simpl. now rewrite IH.
Qed.

Lemma IntDataset_valid : forall data_, dataset_valid (IntDataset data_).
Proof.
  intros data_ index [_ Hlt]. simpl in *.
  rewrite (proj2 (Z.ltb_lt _ _) Hlt). eauto.
Qed.

Section IntDatasetEpochs.

Context {Engine : Type} {Shuffle : StdShuffle Engine} {Memory : Allocator}.

(** X1. Read through an unshuffled loader, an [IntDataset] of at most
    [INT_MAX] entries gives back its vector: whatever the batch size,
    the batches of the epoch that follows the construction, put end to
    end, are [data_] itself. *)
Theorem IntDataset_unshuffled_epoch_is_data :
  forall (data_ : list Z) (B : Z) (g : Engine) (fuel : nat) (dl : DataLoader Z),
    DataLoader_new (IntDataset data_) B false g = Ok dl ->
    Z.of_nat (length data_) <= Int32.max ->
    1 <= B <= SizeT.max -> (length data_ <= fuel)%nat ->
    exists batches visited dl',
      run_epoch fuel dl = Some (Ok batches, visited, dl') /\
      hasNext dl' = false /\
      concat batches = data_.
Proof.
  intros data_ B g fuel dl Hnew Hsize HB Hfuel.
  assert (Hc : current_index_ dl = 0)
    by (apply DataLoader_new_inv in Hnew; tauto).
  destruct (@epoch_from_start _ _ _ Z (IntDataset data_) B false dl fuel)
    as (batches & dl' & Hrun & Hend & _ & Hid & Hsam & _);
    [simpl; lia | apply IntDataset_valid | assumption
     | eapply reachable_new, Hnew | assumption | simpl; lia |].
  exists batches, (indices_ dl), dl'. repeat split; try assumption.
  rewrite (Hid eq_refl) in Hsam. apply IntDataset_samples in Hsam.
  rewrite Hsam. simpl size. rewrite Nat2Z.id. apply IntDataset_read_all.
Qed.


End IntDatasetEpochs.

(** ** What the loader asks of the dataset *)

Section DatasetAccess.

Context {Engine : Type} {Shuffle : StdShuffle Engine} {Memory : Allocator}.
Variable SampleType : Type.

Lemma NoDup_firstn_skipn : forall (l : list Z) n k,
  NoDup l -> NoDup (firstn n (skipn k l)).
Proof.
  intros l n k H.
  rewrite <- (firstn_skipn k l) in H. apply NoDup_app_remove_l in H.
  rewrite <- (firstn_skipn n (skipn k l)) in H.
  now apply NoDup_app_remove_r in H.
Qed.

(** The [getItem] calls of one [nextBatch] are the first entries of its
    batch, all of them when it returns. *)
Lemma nextBatch_calls_prefix :
  forall (dl : DataLoader SampleType) out calls dl',
    0 <= current_index_ dl ->
    nextBatch dl = (out, calls, dl') ->
    exists after, batch_indices dl = calls ++ after.
Proof.
  intros dl out calls dl' Hc Hnext. destruct out as [batch|e].
  - unfold nextBatch in Hnext.
    destruct (@for_loop_cases SampleType (dataset_ dl) (indices_ dl)
                (Z.to_nat (end_index dl - current_index_ dl)) (current_index_ dl)
                [] [] Hc (nextBatch_bound dl Hc))
      as [(samples & _ & _ & Hrun) | (e & index & calls' & _ & _ & Hrun)];
      rewrite Hrun in Hnext; [|discriminate].
    injection Hnext as _ <- _. exists []. now rewrite app_nil_r.
  - destruct (nextBatch_throw_prefix_aux dl Hc Hnext)
      as (before & index & after & Hseg & Hcalls & _).
    exists after. rewrite Hseg, Hcalls, <- app_assoc. reflexivity.
Qed.

(** X10. Over a dataset of at most [INT_MAX] samples, whatever a
    reachable loader is asked, one call of [nextBatch] only hands the
    dataset indices of [0 .. size-1], and none twice: the loader never
    reads the dataset out of range. *)
Theorem nextBatch_calls_in_range :
  forall (d : Dataset SampleType) (B : Z) (sh : bool)
         (dl : DataLoader SampleType) out calls dl',
    0 <= size d <= Int32.max ->
    reachable d B sh dl ->
    nextBatch dl = (out, calls, dl') ->
    Forall (fun index => 0 <= index < size d) calls /\ NoDup calls.
Proof.
  intros d B sh dl out calls dl' Hsize Hreach Hnext.
  destruct (reachable_inv (proj1 Hsize) Hreach) as (_ & _ & _ & _ & _ & _ & Hc).
  destruct (reachable_natural Hsize Hreach) as (Hperm & _).
  destruct (nextBatch_calls_prefix dl (proj1 Hc) Hnext) as [after Hseg].
  assert (Hnodup : NoDup (indices_ dl))
    by (eapply Permutation_NoDup; [exact Hperm | apply natural_order_NoDup]).
  split.
  - apply Forall_forall. intros index Hin.
    assert (Hin' : In index (batch_indices dl))
      by (rewrite Hseg; apply in_or_app; now left).
    unfold batch_indices in Hin'.
    assert (Hall : Forall (fun k => In k (indices_ dl)) (indices_ dl))
      by (apply Forall_forall; auto).
    apply Forall_firstn_skipn
      with (n := Z.to_nat (end_index dl - current_index_ dl))
           (k := Z.to_nat (current_index_ dl)) in Hall.
    rewrite Forall_forall in Hall. apply Hall in Hin'.
    apply Permutation_sym in Hperm.
    apply (Permutation_in _ Hperm), natural_order_In in Hin'. lia.
  - apply NoDup_firstn_skipn
      with (n := Z.to_nat (end_index dl - current_index_ dl))
           (k := Z.to_nat (current_index_ dl)) in Hnodup.
    fold (batch_indices dl) in Hnodup. rewrite Hseg in Hnodup.
    now apply NoDup_app_remove_r in Hnodup.
Qed.

End DatasetAccess.

(** ** Datasets of more than INT_MAX samples *)

Section Oversized.

Context {Engine : Type} {Shuffle : StdShuffle Engine} {Memory : Allocator}.
Variable SampleType : Type.

(** Past [2^31] samples the constructor leaves in [indices_] the value
    [2^64 - 2^31] where [2^31] was due. *)
Lemma oversized_indices :
  forall (d : Dataset SampleType) B sh (g : Engine) dl,
    DataLoader_new d B sh g = Ok dl -> 2 ^ 31 < size d ->
    In (SizeT.modulus - 2 ^ 31) (indices_ dl) /\ ~ In (2 ^ 31) (indices_ dl).
Proof.
  intros d B sh g dl Hnew Hbig.
  apply DataLoader_new_inv in Hnew.
  destruct Hnew as (_ & _ & _ & _ & _ & _ & Hi).
  assert (Hn : 2 ^ 31 < Z.of_nat (Z.to_nat (size d))).
  { rewrite Z2Nat.id; [assumption|]. change (2 ^ 31) with 2147483648 in Hbig. lia. }
  destruct (iota_overflow _ Hn) as [Hin Hout]. rewrite Hi.
  destruct sh; [|now split]. split.
  - eapply Permutation_in; [apply std_shuffle_perm | exact Hin].
  - intros H. apply Hout.
    eapply Permutation_in; [apply Permutation_sym, std_shuffle_perm | exact H].
Qed.

(** A loader at the start of its epoch whose batch size is the whole of
    [indices_]: if one entry cannot be read, its only batch throws and
    the client's loop ends at once with that exception and no batch. *)
Lemma single_batch_epoch_throws : forall dl : DataLoader SampleType,
  current_index_ dl = 0 -> 0 < indices_size dl ->
  batch_size_ dl = indices_size dl -> indices_size dl <= SizeT.max ->
  Exists (fun index => exists e, getItem (dataset_ dl) index = Throw e)
         (indices_ dl) ->
  hasNext dl = true /\
  exists e calls,
    nextBatch dl = (Throw e, calls, dl) /\
    (forall index, In index calls -> In index (indices_ dl)) /\
    forall fuel, run_epoch (S fuel) dl = Some (Throw e, calls, dl).
Proof.
  intros dl Hc Hpos HB Hmax Hbad.
  assert (Hbatch : batch_indices dl = indices_ dl).
  { unfold batch_indices, end_index.
    rewrite Hc, HB, SizeT_add_small, Z.min_id, Z.sub_0_r by lia.
    unfold indices_size. rewrite Nat2Z.id. change (Z.to_nat 0) with 0%nat.
    cbn [skipn]. apply firstn_all. }
  assert (Hnext : hasNext dl = true) by (apply hasNext_true_iff; lia).
  split; [exact Hnext|].
  assert (Hc0 : 0 <= current_index_ dl) by lia.
  destruct (@nextBatch_some_throw SampleType dl Hc0) as (e & calls & Hthrow).
  { now rewrite Hbatch. }
  exists e, calls. split; [exact Hthrow|]. split.
  - intros index Hin.
    destruct (nextBatch_calls_prefix dl Hc0 Hthrow) as [after Hseg].
    rewrite <- Hbatch, Hseg. apply in_or_app. now left.
  - intros fuel. simpl. now rewrite Hnext, Hthrow.
Qed.

End Oversized.

Section OversizedDataset.

Context {Engine : Type} {Shuffle : StdShuffle Engine}.

Lemma big_dataset_constructs : forall B sh (g : Engine),
  exists dl, DataLoader_new big_dataset B sh g = Ok dl.
Proof.
  intros B sh g. eexists. apply DataLoader_new_ok; clear; now vm_compute.
Qed.

Lemma big_dataset_size : size big_dataset = 2 ^ 31 + 1.
Proof. reflexivity. Qed.

Lemma big_dataset_size_bounds : 0 < size big_dataset <= SizeT.max.
Proof. split; now vm_compute. Qed.

Lemma big_dataset_holds_2_31 : 0 <= 2 ^ 31 < size big_dataset.
Proof. split; now vm_compute. Qed.

Lemma big_dataset_rejects : 
  getItem big_dataset (SizeT.modulus - 2 ^ 31) = Throw out_of_range.
Proof. reflexivity. Qed.

(** The epoch over [big_dataset] taken in one batch. *)
Lemma big_dataset_epoch : forall sh (g : Engine) dl,
  DataLoader_new big_dataset (2 ^ 31 + 1) sh g = Ok dl ->
  ~ In (2 ^ 31) (indices_ dl) /\
  In (SizeT.modulus - 2 ^ 31) (indices_ dl) /\
  hasNext dl = true /\
  exists e calls,
    nextBatch dl = (Throw e, calls, dl) /\ ~ In (2 ^ 31) calls /\
    forall fuel, run_epoch (S fuel) dl = Some (Throw e, calls, dl).
Proof.
  intros sh g dl Hnew.
  destruct (oversized_indices _ _ _ _ Hnew) as [Hin Hout];
    [rewrite big_dataset_size; change (2 ^ 31) with 2147483648; lia|].
  pose proof (reachable_new _ _ _ _ Hnew) as Hreach.
  pose proof big_dataset_size_bounds as [Hpos Hmax].
  apply reachable_inv in Hreach; [|lia].
  destruct Hreach as (Hd & Hb & _ & _ & _ & Hn & _).
  apply DataLoader_new_inv in Hnew.
  destruct Hnew as (_ & _ & _ & _ & _ & Hc & _).
  destruct (@single_batch_epoch_throws Z dl Hc)
    as (Hnext & e & calls & Hthrow & Hsub & Hrun).
  - rewrite Hn. exact Hpos.
  - rewrite Hb, Hn. exact big_dataset_size.
  - rewrite Hn. exact Hmax.
  - apply Exists_exists. exists (SizeT.modulus - 2 ^ 31). split; [exact Hin|].
    rewrite Hd. exists out_of_range. exact big_dataset_rejects.
  - split; [exact Hout|]. split; [exact Hin|]. split; [exact Hnext|].
    exists e, calls. split; [exact Hthrow|]. split; [|exact Hrun].
    intros H. apply Hout, Hsub, H.
Qed.

Lemma big_dataset_not_natural : forall l : list Z,
  In (SizeT.modulus - 2 ^ 31) l ->
  l <> natural_order (Z.to_nat (size big_dataset)).
Proof.
  intros l Hin Heq. rewrite Heq in Hin. apply natural_order_In in Hin.
  pose proof big_dataset_size_bounds as [Hpos _].
  rewrite Z2Nat.id in Hin by lia.
  rewrite big_dataset_size in Hin. machine_constants. lia.
Qed.

(** C1 on a dataset of [2^31 + 1] samples read in one shuffled batch:
    the loader is built, but its index order lacks index [2^31] and
    holds [2^64 - 2^31] instead; [getItem] is never called on [2^31],
    the batch throws and the epoch ends with that exception. *)
Theorem oversized_shuffled_epoch_misses_an_index : forall g : Engine,
  exists dl,
    DataLoader_new big_dataset (2 ^ 31 + 1) true g = Ok dl /\
    0 <= 2 ^ 31 < size big_dataset /\
    ~ In (2 ^ 31) (indices_ dl) /\
    In (SizeT.modulus - 2 ^ 31) (indices_ dl) /\
    exists e calls,
      nextBatch dl = (Throw e, calls, dl) /\ ~ In (2 ^ 31) calls /\
      forall fuel, run_epoch (S fuel) dl = Some (Throw e, calls, dl).
Proof.
  intros g. destruct (big_dataset_constructs (2 ^ 31 + 1) true g) as [dl Hnew].
  destruct (big_dataset_epoch Hnew) as (Hout & Hin & _ & Hepoch).
  exists dl. split; [exact Hnew|]. split; [exact big_dataset_holds_2_31|].
  split; [exact Hout|]. split; [exact Hin|]. exact Hepoch.
Qed.

(** C2 on a dataset of [2^31 + 1] samples read in one unshuffled batch:
    the index order is not [0 .. size-1] -- it holds [2^64 - 2^31] and
    lacks [2^31] -- and the epoch ends with an exception instead of the
    samples in natural order. *)
Theorem oversized_unshuffled_epoch_not_natural : forall g : Engine,
  exists dl,
    DataLoader_new big_dataset (2 ^ 31 + 1) false g = Ok dl /\
    indices_ dl <> natural_order (Z.to_nat (size big_dataset)) /\
    In (SizeT.modulus - 2 ^ 31) (indices_ dl) /\
    ~ In (2 ^ 31) (indices_ dl) /\
    exists e calls,
      nextBatch dl = (Throw e, calls, dl) /\
      forall fuel, run_epoch (S fuel) dl = Some (Throw e, calls, dl).
Proof.
  intros g. destruct (big_dataset_constructs (2 ^ 31 + 1) false g) as [dl Hnew].
  destruct (big_dataset_epoch Hnew)
    as (Hout & Hin & _ & e & calls & Hthrow & _ & Hrun).
  exists dl. split; [exact Hnew|].
  split; [apply big_dataset_not_natural; exact Hin|].
  split; [exact Hin|]. split; [exact Hout|]. exists e, calls.
  split; [exact Hthrow | exact Hrun].
Qed.


(** C4 on a dataset of [2^31 + 1] samples: the loader as constructed,
    shuffled or not, is reachable, and its [indices_] is no permutation
    of [0 .. size-1]: it holds [2^64 - 2^31], which is no index of the
    dataset, and lacks [2^31], which is one. *)
Theorem oversized_loader_indices_not_permutation :
  forall (sh : bool) (g : Engine),
  exists dl,
    reachable big_dataset 2 sh dl /\
    In (SizeT.modulus - 2 ^ 31) (indices_ dl) /\
    ~ (0 <= SizeT.modulus - 2 ^ 31 < size big_dataset) /\
    0 <= 2 ^ 31 < size big_dataset /\
    ~ In (2 ^ 31) (indices_ dl).
Proof.
  intros sh g. destruct (big_dataset_constructs 2 sh g) as [dl Hnew].
  destruct (oversized_indices _ _ _ _ Hnew) as [Hin Hout];
    [rewrite big_dataset_size; change (2 ^ 31) with 2147483648; lia|].
  exists dl. split; [eapply reachable_new, Hnew|]. split; [exact Hin|].
  split; [|split; [exact big_dataset_holds_2_31 | exact Hout]].
  rewrite big_dataset_size. machine_constants. lia.
Qed.

(** C9 on a dataset of [2^31 + 1] samples, unshuffled: [reset] leaves
    [indices_] as it was, and that is not the identity order. *)
Theorem oversized_reset_order_not_identity : forall g g' : Engine,
  exists dl,
    DataLoader_new big_dataset 2 false g = Ok dl /\
    indices_ (reset g' dl) = indices_ dl /\
    indices_ (reset g' dl) <> natural_order (Z.to_nat (size big_dataset)) /\
    In (SizeT.modulus - 2 ^ 31) (indices_ (reset g' dl)) /\
    ~ In (2 ^ 31) (indices_ (reset g' dl)).
Proof.
  intros g g'. destruct (big_dataset_constructs 2 false g) as [dl Hnew].
  destruct (oversized_indices _ _ _ _ Hnew) as [Hin Hout];
    [rewrite big_dataset_size; change (2 ^ 31) with 2147483648; lia|].
  assert (Hsame : indices_ (reset g' dl) = indices_ dl).
  { apply DataLoader_new_inv in Hnew.
    destruct Hnew as (_ & _ & _ & _ & Hs & _). unfold reset.
    cbn [indices_]. rewrite Hs. reflexivity. }
  exists dl. split; [exact Hnew|]. split; [exact Hsame|]. rewrite Hsame.
  split; [apply big_dataset_not_natural; exact Hin|].
  split; [exact Hin | exact Hout].
Qed.

End OversizedDataset.

(** ** The claims on the fixtures *)

Lemma test_dataset_small : 0 <= size test_dataset <= Int32.max.
Proof. split; now vm_compute. Qed.

Lemma test_data_small : Z.of_nat (length [10; 11; 12; 13; 14]) <= Int32.max.
Proof. now vm_compute. Qed.

Lemma unit_range : 1 <= 2 <= SizeT.max.
Proof. split; now vm_compute. Qed.

(** C5, as stated, fails: with batch size 0 the constructor returns a
    loader, not an error, and the loader answers [hasNext()] with true
    for ever while [nextBatch()] yields nothing. *)
Lemma construction_with_zero_batch_size_succeeds :
  ~ (exists e, DataLoader_new test_dataset 0 false test_draws = Throw e) /\
  exists dl,
    DataLoader_new test_dataset 0 false test_draws = Ok dl /\
    hasNext dl = true /\ nextBatch dl = (Ok [], [], dl) /\
    run_epoch 100 dl = None.
Proof.
  split.
  - intros [e H]. vm_compute in H. discriminate.
  - eexists. repeat split; vm_compute; reflexivity.
Qed.

(** C6, as stated, fails: after the three batches of the test epoch the
    loader is exhausted and [nextBatch()] returns an empty batch; it
    throws nothing. *)
Lemma nextBatch_when_exhausted_does_not_throw :
  DataLoader_new test_dataset 2 false test_draws = Ok test_loader /\
  run_epoch 3 test_loader
    = Some (Ok [[10; 11]; [12; 13]; [14]], [0; 1; 2; 3; 4], exhausted_loader) /\
  hasNext exhausted_loader = false /\
  nextBatch exhausted_loader = (Ok [], [], exhausted_loader) /\
  ~ (exists e calls dl', nextBatch exhausted_loader = (Throw e, calls, dl')).
Proof.
  repeat split; try (vm_compute; reflexivity).
  intros (e & calls & dl' & H). vm_compute in H. discriminate.
Qed.

(** C7 on a loader built with batch size [SIZE_MAX] over the five test
    samples.  Its first batch takes all five and exhausts it.  There
    [current_index_ + batch_size_] wraps to 4, so [end_index] is 4, below
    the cursor: the second call returns an empty batch without calling
    [getItem], but it moves the cursor back from 5 to 4 and [hasNext()]
    turns from false to true. *)
Theorem nextBatch_after_exhaustion_rewinds_on_wrap :
  exists dl0 dl2,
    DataLoader_new test_dataset SizeT.max false test_draws = Ok dl0 /\
    nextBatch dl0 = (Ok [10; 11; 12; 13; 14], [0; 1; 2; 3; 4], greedy_loader_exhausted) /\
    hasNext greedy_loader_exhausted = false /\
    current_index_ greedy_loader_exhausted = indices_size greedy_loader_exhausted /\
    SizeT.add (current_index_ greedy_loader_exhausted)
              (batch_size_ greedy_loader_exhausted) = 4 /\
    end_index greedy_loader_exhausted = 4 /\
    nextBatch greedy_loader_exhausted = (Ok [], [], dl2) /\
    current_index_ dl2 = 4 /\
    hasNext dl2 = true.
Proof.
  do 2 eexists. repeat split; vm_compute; reflexivity.
Qed.

(** C10 on the same loader, built with batch size [SIZE_MAX] over the
    five test samples and exhausted by its first batch, a state a client
    can reach.  [end_index] is 4 and the cursor 5: the batch has no
    index, so every [getItem] call of the batch succeeds, and the call
    returns -- a batch of length 0, which is not [end - cursor], and a
    cursor moved back to 4 rather than advanced. *)
Theorem nextBatch_on_wrap_is_short_and_moves_back :
  reachable (Engine := nat -> nat) test_dataset SizeT.max false
            greedy_loader_exhausted /\
  Forall (fun index =>
            exists sample, getItem (dataset_ greedy_loader_exhausted) index = Ok sample)
         (batch_indices greedy_loader_exhausted) /\
  end_index greedy_loader_exhausted = 4 /\
  current_index_ greedy_loader_exhausted = 5 /\
  exists batch dl',
    nextBatch greedy_loader_exhausted = (Ok batch, [], dl') /\
    length batch = 0%nat /\
    Z.of_nat (length batch)
      <> end_index greedy_loader_exhausted
         - current_index_ greedy_loader_exhausted /\
    current_index_ dl' = 4 /\
    current_index_ dl' < current_index_ greedy_loader_exhausted.
Proof.
  split.
  { assert (Hnew : DataLoader_new test_dataset SizeT.max false test_draws
                   = Ok greedy_loader) by reflexivity.
    assert (Hstep : apply_operation (Engine := nat -> nat) op_nextBatch greedy_loader
                    = greedy_loader_exhausted) by (vm_compute; reflexivity).
    rewrite <- Hstep. apply reachable_step. eapply reachable_new, Hnew. }
  split; [constructor|]. split; [reflexivity|]. split; [reflexivity|].
  do 2 eexists. split; [vm_compute; reflexivity|].
  repeat split; vm_compute; congruence.
Qed.

(** The scenario of [DataLoaderTest.BatchIterationNoShuffle]: over
    [10,11,12,13,14] with batch size 2 and no shuffle the successive
    calls give [10,11], [12,13], [14], after which [hasNext()] is false. *)
Lemma test_scenario_batches : forall g : nat -> nat,
  exists l0 l1 l2 l3,
    DataLoader_new (IntDataset [10; 11; 12; 13; 14]) 2 false g = Ok l0 /\
    hasNext l0 = true /\ nextBatch l0 = (Ok [10; 11], [0; 1], l1) /\
    hasNext l1 = true /\ nextBatch l1 = (Ok [12; 13], [2; 3], l2) /\
    hasNext l2 = true /\ nextBatch l2 = (Ok [14], [4], l3) /\
    hasNext l3 = false.
Proof.
  intros g. do 4 eexists. repeat split; vm_compute; reflexivity.
Qed.

(** C5 (amended) on the test dataset: built with batch size 2, hence
    also with batch size 0. *)
Lemma construction_accepts_any_batch_size_witness :
  exists dl0,
    DataLoader_new test_dataset 0 false test_draws = Ok dl0 /\
    batch_size_ dl0 = 0 /\
    dataset_ dl0 = dataset_ test_loader /\ shuffle_ dl0 = shuffle_ test_loader /\
    indices_ dl0 = indices_ test_loader /\
    current_index_ dl0 = current_index_ test_loader /\
    (0 < size test_dataset ->
     hasNext dl0 = true /\ nextBatch dl0 = (Ok [], [], dl0)).
Proof.
  apply (@construction_accepts_any_batch_size _ FisherYates test_memory Z
           test_dataset 2 false test_draws test_loader).
  reflexivity.
Defined.

(** C6 (amended) on the exhausted test loader. *)
Lemma nextBatch_when_exhausted_returns_empty_witness :
  exists dl',
    nextBatch exhausted_loader = (Ok [], [], dl') /\
    same_config exhausted_loader dl'.
Proof.
  apply (@nextBatch_when_exhausted_returns_empty Z exhausted_loader).
  reflexivity.
Defined.

(** C8 on the test dataset, batch size 2, three unrelated engines. *)
Lemma unshuffled_traversals_identical_witness :
  run_epoch 5 test_loader = run_epoch 5 test_loader /\
  (forall out calls dl1',
      run_epoch 5 test_loader = Some (out, calls, dl1') ->
      run_epoch 5 (reset (fun _ : nat => 0%nat) dl1') = Some (out, calls, dl1')) /\
  (0 <= size test_dataset <= Int32.max -> dataset_valid test_dataset ->
   1 <= 2 <= SizeT.max -> (Z.to_nat (size test_dataset) <= 5)%nat ->
   exists batches dl1',
     run_epoch 5 test_loader
       = Some (Ok batches, natural_order (Z.to_nat (size test_dataset)), dl1') /\
     hasNext dl1' = false /\
     samples_of test_dataset (natural_order (Z.to_nat (size test_dataset)))
                (concat batches)).
Proof.
  apply (@unshuffled_traversals_identical _ FisherYates test_memory Z
           test_dataset 2 test_draws (fun k => k) (fun _ => 0%nat) 5%nat
           test_loader test_loader).
  - reflexivity.
  - reflexivity.
Defined.

(** All or nothing on the two loaders: the first batch of [test_loader] comes whole;
    the batch of [flaky_loader] that covers the unreadable entry does not
    come at all and the loader stays where it was. *)
Lemma nextBatch_all_or_nothing_witness :
  (exists batch dl',
      nextBatch test_loader = (Ok batch, batch_indices test_loader, dl') /\
      samples_of test_dataset (batch_indices test_loader) batch /\
      length batch = 2%nat /\ current_index_ dl' = 2)
  /\
  (exists e calls, nextBatch flaky_loader = (Throw e, calls, flaky_loader)).
Proof.
  split.
  - destruct (proj1 (@nextBatch_all_or_nothing Z test_loader
                       ltac:(vm_compute; discriminate)))
      as (batch & dl' & Hnext & Hsam & Hlen & _ & _ & Hcur).
    + repeat constructor; vm_compute; eauto.
    + exists batch, dl'. repeat split; assumption.
  - apply (proj2 (@nextBatch_all_or_nothing Z flaky_loader
                    ltac:(vm_compute; discriminate))).
    apply Exists_cons_tl, Exists_cons_hd.
    exists (dataset_error 1). reflexivity.
Defined.

(** X1 on the test vector, batch size 2. *)
Lemma IntDataset_unshuffled_epoch_is_data_witness :
  exists batches visited dl',
    run_epoch 5 test_loader = Some (Ok batches, visited, dl') /\
    hasNext dl' = false /\
    concat batches = [10; 11; 12; 13; 14].
Proof.
  apply (@IntDataset_unshuffled_epoch_is_data _ FisherYates test_memory
           [10; 11; 12; 13; 14] 2 test_draws 5%nat test_loader).
  - reflexivity.
  - exact test_data_small.
  - exact unit_range.
  - apply le_n.
Defined.


(** X3 on the shuffled loader, reset in the middle of its epoch. *)
Lemma reset_starts_full_epoch_witness :
  exists batches visited dl',
    run_epoch 5 (reset test_draws (snd (nextBatch shuffled_loader)))
      = Some (Ok batches, visited, dl') /\
    hasNext dl' = false /\
    length visited = Z.to_nat (size test_dataset) /\ NoDup visited /\
    (forall index, In index visited <-> 0 <= index < size test_dataset) /\
    (true = false -> visited = natural_order (Z.to_nat (size test_dataset))) /\
    samples_of test_dataset visited (concat batches) /\
    Z.of_nat (length (concat batches)) = size test_dataset /\
    epoch_lengths 2 (size test_dataset) batches.
Proof.
  apply (@reset_starts_full_epoch _ FisherYates test_memory Z test_dataset 2 true
           (snd (nextBatch shuffled_loader)) test_draws 5%nat).
  - exact test_dataset_small.
  - apply IntDataset_valid.
  - exact unit_range.
  - apply (reachable_step op_nextBatch).
    apply reachable_new with test_draws. reflexivity.
  - apply le_n.
Defined.

(** X4 on the test dataset: three batches of at most 2 for 5 samples. *)
Lemma epoch_batch_count_witness :
  exists batches visited dl',
    run_epoch 5 shuffled_loader = Some (Ok batches, visited, dl') /\
    Z.of_nat (length batches) = (size test_dataset + 2 - 1) / 2.
Proof.
  apply (@epoch_batch_count _ FisherYates test_memory Z test_dataset 2 true
           test_draws 5%nat shuffled_loader).
  - reflexivity.
  - exact test_dataset_small.
  - apply IntDataset_valid.
  - exact unit_range.
  - apply le_n.
Defined.

(** X5 on the test dataset. *)
Lemma epoch_batches_are_slices_witness :
  exists batches visited dl',
    run_epoch 5 shuffled_loader = Some (Ok batches, visited, dl') /\
    Z.of_nat (length batches) = (size test_dataset + 2 - 1) / 2 /\
    forall j, (j < length batches)%nat ->
      samples_of test_dataset
                 (firstn (Z.to_nat 2) (skipn (j * Z.to_nat 2) (indices_ shuffled_loader)))
                 (nth j batches []).
Proof.
  apply (@epoch_batches_are_slices _ FisherYates test_memory Z test_dataset 2 true
           test_draws 5%nat shuffled_loader).
  - reflexivity.
  - exact test_dataset_small.
  - apply IntDataset_valid.
  - exact unit_range.
  - apply le_n.
Defined.

(** X6 on the flaky loader: entry 2 is read, entry 3 throws. *)
Lemma nextBatch_throw_is_first_failure_witness :
  nextBatch flaky_loader = (Throw (dataset_error 1), [2; 3], flaky_loader) /\
  exists before index after,
    batch_indices flaky_loader = before ++ index :: after /\
    [2; 3] = before ++ [index] /\
    getItem (dataset_ flaky_loader) index = Throw (dataset_error 1) /\
    Forall (fun k => exists sample, getItem (dataset_ flaky_loader) k = Ok sample)
           before.
Proof.
  split; [reflexivity|].
  apply (@nextBatch_throw_is_first_failure Z flaky_loader (dataset_error 1)
           [2; 3] flaky_loader).
  - vm_compute. discriminate.
  - reflexivity.
Defined.

(** X7 on a loader over no sample, after a reset and an unguarded call. *)
Lemma empty_dataset_never_has_next_witness :
  hasNext (snd (nextBatch (reset test_draws empty_loader))) = false /\
  run_epoch 4 (snd (nextBatch (reset test_draws empty_loader)))
    = Some (Ok [], [], snd (nextBatch (reset test_draws empty_loader))) /\
  nextBatch (snd (nextBatch (reset test_draws empty_loader)))
    = (Ok [], [], snd (nextBatch (reset test_draws empty_loader))).
Proof.
  apply (@empty_dataset_never_has_next _ FisherYates test_memory Z (IntDataset []) 3 true).
  - reflexivity.
  - apply (reachable_step op_nextBatch).
    apply (reachable_step (op_reset test_draws)).
    apply reachable_new with test_draws. reflexivity.
Defined.

(** X8 on the flaky loader from the start of its epoch: the first batch
    comes, the second throws. *)
Lemma failed_epoch_rests_on_failed_batch_witness :
  run_epoch 5 flaky_loader_start
    = Some (Throw (dataset_error 1), [0; 1; 2; 3], flaky_loader) /\
  hasNext flaky_loader = true /\ same_config flaky_loader_start flaky_loader /\
  exists last_calls,
    nextBatch flaky_loader = (Throw (dataset_error 1), last_calls, flaky_loader).
Proof.
  split; [reflexivity|].
  apply (@failed_epoch_rests_on_failed_batch Z 5%nat flaky_loader_start
           (dataset_error 1) [0; 1; 2; 3] flaky_loader).
  reflexivity.
Defined.

(** X9 on the test loader. *)
Lemma nextBatch_makes_progress_witness :
  exists batch dl',
    nextBatch test_loader = (Ok batch, batch_indices test_loader, dl') /\
    Z.of_nat (length batch)
      = Z.min (batch_size_ test_loader)
              (indices_size test_loader - current_index_ test_loader) /\
    (1 <= length batch)%nat /\
    current_index_ dl' = current_index_ test_loader + Z.of_nat (length batch) /\
    current_index_ dl' <= indices_size test_loader.
Proof.
  apply (@nextBatch_makes_progress Z test_loader).
  - split; now vm_compute.
  - now vm_compute.
  - now vm_compute.
  - repeat constructor; vm_compute; eauto.
Defined.

(** X10 on the second batch of the shuffled loader. *)
Lemma nextBatch_calls_in_range_witness :
  Forall (fun index => 0 <= index < size test_dataset)
         (snd (fst (nextBatch (snd (nextBatch shuffled_loader))))) /\
  NoDup (snd (fst (nextBatch (snd (nextBatch shuffled_loader))))).
Proof.
  apply (@nextBatch_calls_in_range _ FisherYates test_memory Z test_dataset 2 true
           (snd (nextBatch shuffled_loader))
           (fst (fst (nextBatch (snd (nextBatch shuffled_loader)))))
           (snd (fst (nextBatch (snd (nextBatch shuffled_loader)))))
           (snd (nextBatch (snd (nextBatch shuffled_loader))))).
  - exact test_dataset_small.
  - apply (reachable_step op_nextBatch).
    apply reachable_new with test_draws. reflexivity.
  - reflexivity.
Defined.

(** X11 on the test dataset, batch size 2, shuffled by [test_draws]. *)
Lemma construction_epoch_reads_every_sample_witness :
  exists batches visited dl',
    run_epoch 5 shuffled_loader = Some (Ok batches, visited, dl') /\
    hasNext dl' = false /\
    length visited = Z.to_nat (size test_dataset) /\ NoDup visited /\
    (forall index, In index visited <-> 0 <= index < size test_dataset) /\
    (true = false -> visited = natural_order (Z.to_nat (size test_dataset))) /\
    samples_of test_dataset visited (concat batches) /\
    Z.of_nat (length (concat batches)) = size test_dataset /\
    epoch_lengths 2 (size test_dataset) batches.
Proof.
  apply (@construction_epoch_reads_every_sample _ FisherYates test_memory Z
           test_dataset 2 true test_draws 5%nat shuffled_loader).
  - reflexivity.
  - exact test_dataset_small.
  - apply IntDataset_valid.
  - exact unit_range.
  - apply le_n.
Defined.

(** X12 on the shuffled loader after a batch, a reset and another batch. *)
Lemma small_dataset_loader_invariant_witness :
  length (indices_ (snd (nextBatch (reset test_draws (snd (nextBatch shuffled_loader))))))
    = Z.to_nat (size test_dataset) /\
  NoDup (indices_ (snd (nextBatch (reset test_draws (snd (nextBatch shuffled_loader)))))) /\
  (forall index,
      In index (indices_ (snd (nextBatch (reset test_draws (snd (nextBatch shuffled_loader))))))
      <-> 0 <= index < size test_dataset) /\
  (true = false ->
   indices_ (snd (nextBatch (reset test_draws (snd (nextBatch shuffled_loader)))))
     = natural_order (Z.to_nat (size test_dataset))) /\
  0 <= current_index_ (snd (nextBatch (reset test_draws (snd (nextBatch shuffled_loader)))))
    <= size test_dataset /\
  (hasNext (snd (nextBatch (reset test_draws (snd (nextBatch shuffled_loader))))) = false
   <-> current_index_ (snd (nextBatch (reset test_draws (snd (nextBatch shuffled_loader)))))
       = size test_dataset).
Proof.
  apply (@small_dataset_loader_invariant _ FisherYates test_memory Z
           test_dataset 2 true).
  - exact test_dataset_small.
  - apply (reachable_step op_nextBatch).
    apply (reachable_step (op_reset test_draws)).
    apply (reachable_step op_nextBatch).
    apply reachable_new with test_draws. reflexivity.
Defined.

(** X13 on the exhausted test loader. *)
Lemma reset_zeroes_cursor_and_keeps_configuration_witness :
  current_index_ (reset test_draws exhausted_loader) = 0 /\
  (hasNext (reset test_draws exhausted_loader) = true <-> 0 < size test_dataset) /\
  (false = false ->
   indices_ (reset test_draws exhausted_loader) = indices_ exhausted_loader) /\
  length (indices_ (reset test_draws exhausted_loader))
    = length (indices_ exhausted_loader) /\
  batch_size_ (reset test_draws exhausted_loader) = batch_size_ exhausted_loader /\
  shuffle_ (reset test_draws exhausted_loader) = shuffle_ exhausted_loader /\
  dataset_ (reset test_draws exhausted_loader) = dataset_ exhausted_loader.
Proof.
  apply (@reset_zeroes_cursor_and_keeps_configuration _ FisherYates test_memory Z
           test_dataset 2 false).
  - now vm_compute.
  - change exhausted_loader
      with (apply_operation (Engine := nat -> nat) op_nextBatch
              (apply_operation op_nextBatch
                 (apply_operation op_nextBatch test_loader))).
    do 3 apply reachable_step.
    apply reachable_new with test_draws. reflexivity.
Defined.
